(** * The CSF command-stream assembler of [src/panfrost/csf_test/interpret.py]

    A shallow embedding of the assembler and linker in [interpret.py]:
    [resolve_rel], [to_int16], the classes [Buffer], [Level], [Alloc] and
    [Context], and the module-level [interpret].

    Conventions of the embedding.
    - Python integers are unbounded: they are [Z], and [&], [|], [<<], [>>]
      are [Z.land], [Z.lor], [Z.shiftl], [Z.shiftr].
    - Program text is ASCII; a Python [str] is a [string].
    - A Python exception is a [Raise]; nothing in the file catches one, so
      an exception ends the run.
    - The class attribute [Buffer.id] is process-wide state: it is the field
      [Buffer_id] of the state and survives from one [interpret] to the next.
    - Level objects are shared between [self.levels], [self.l] and
      [self.completed]; they live in an arena and are referred to by index.
    - [print] calls are recorded in the field [out]. *)

From Stdlib Require Import ZArith List String Ascii Bool Lia.
From Stdlib Require Import Numbers.DecimalString Numbers.HexadecimalString.
From stdpp Require Import base option list gmap strings.
Import ListNotations.

Local Open Scope string_scope.
Local Open Scope Z_scope.

(** ** Exceptions *)

Inductive exn : Set :=
| AssertionError
| KeyError
| IndexError
| ValueError
| TypeError
| UnboundLocalError
| AttributeError
| Unsupported.   (* a construct outside the embedding: [float:] operands *)

Inductive result (A : Type) : Type :=
| Ok (a : A)
| Raise (e : exn).
Arguments Ok {A} a.
Arguments Raise {A} e.

Definition rbind {A B} (m : result A) (f : A -> result B) : result B :=
  match m with
  | Ok a => f a
  | Raise e => Raise e
  end.

Definition rmap {A B} (f : A -> B) (m : result A) : result B :=
  rbind m (fun a => Ok (f a)).

Notation "x <- m ;; k" := (rbind m (fun x => k))
  (at level 20, m at level 99, k at level 200, only parsing).
Notation "' p <- m ;; k" := (rbind m (fun x => let p := x in k))
  (at level 20, p pattern, m at level 99, k at level 200, only parsing).

(** [assert(b)] *)
Definition py_assert (b : bool) : result unit :=
  if b then Ok tt else Raise AssertionError.

Definition of_option {A} (e : exn) (o : option A) : result A :=
  match o with
  | Some a => Ok a
  | None => Raise e
  end.

Definition is_ok {A} (m : result A) : bool :=
  match m with Ok _ => true | Raise _ => false end.

(** ** Python lists *)

Module PyList.

Definition len {A} (l : list A) : Z := Z.of_nat (List.length l).

(** The position an index [i] denotes: negative indices count from the
    end, anything else out of range raises [IndexError]. *)
Definition index {A} (l : list A) (i : Z) : result nat :=
  if (0 <=? i) && (i <? len l) then Ok (Z.to_nat i)
  else if (- len l <=? i) && (i <? 0) then Ok (Z.to_nat (len l + i))
  else Raise IndexError.

(** [l[i]] *)
Definition get {A} (l : list A) (i : Z) : result A :=
  n <- index l i ;; of_option IndexError (l !! n).

(** [l[i] = x] *)
Definition set {A} (l : list A) (i : Z) (x : A) : result (list A) :=
  n <- index l i ;; Ok (<[n := x]> l).

(** [l[i:]] for [0 <= i] *)
Definition from {A} (i : nat) (l : list A) : list A := drop i l.

(** [l[i::2]] *)
Fixpoint every_other {A} (l : list A) : list A :=
  match l with
  | [] => []
  | x :: r => x :: match r with [] => [] | _ :: r' => every_other r' end
  end.

(** [l.pop()] *)
Definition pop {A} (l : list A) : result (A * list A) :=
  match List.rev l with
  | [] => Raise IndexError
  | x :: r => Ok (x, List.rev r)
  end.

(** [l[-1]] *)
Definition last {A} (l : list A) : result A := get l (-1).

End PyList.

(** ** Python strings (ASCII) *)

Module PyStr.

Definition chars := list_ascii_of_string.
Definition str := string_of_list_ascii.

Definition code (c : ascii) : N := N_of_ascii c.

(** [str.isspace] on the ASCII range: TAB LF VT FF CR, FS GS RS US, SPACE *)
Definition is_space (c : ascii) : bool :=
  let n := code c in
  ((9 <=? n) && (n <=? 13) || (28 <=? n) && (n <=? 32))%N.

Definition is_digit (c : ascii) : bool :=
  let n := code c in ((48 <=? n) && (n <=? 57))%N.

Definition is_lower_hex (c : ascii) : bool :=
  let n := code c in (is_digit c || (97 <=? n) && (n <=? 102))%N.

Definition mem (c : ascii) (set : string) : bool :=
  existsb (Ascii.eqb c) (chars set).

Fixpoint drop_while (p : ascii -> bool) (l : list ascii) : list ascii :=
  match l with
  | [] => []
  | c :: r => if p c then drop_while p r else l
  end.

Definition lstrip_by (p : ascii -> bool) (s : string) : string :=
  str (drop_while p (chars s)).
Definition rstrip_by (p : ascii -> bool) (s : string) : string :=
  str (List.rev (drop_while p (List.rev (chars s)))).

(** [s.lstrip()], [s.rstrip()], [s.strip()], [s.strip(set)] *)
Definition lstrip := lstrip_by is_space.
Definition rstrip := rstrip_by is_space.
Definition strip (s : string) := lstrip (rstrip s).
Definition strip_chars (set : string) (s : string) : string :=
  lstrip_by (fun c => mem c set) (rstrip_by (fun c => mem c set) s).

(** [s.lower()] *)
Definition lower_char (c : ascii) : ascii :=
  let n := code c in
  if ((65 <=? n) && (n <=? 90))%N then ascii_of_N (n + 32) else c.
Definition lower (s : string) : string := str (List.map lower_char (chars s)).

(** [s.expandtabs()]: a TAB pads with one to eight spaces up to the next
    multiple of 8 columns; LF and CR restart the column count. *)
Fixpoint expandtabs_from (col : nat) (l : list ascii) : list ascii :=
  match l with
  | [] => []
  | c :: r =>
      if Ascii.eqb c "009" then
        let pad := (8 - col mod 8)%nat in
        List.repeat " "%char pad ++ expandtabs_from (col + pad) r
      else if Ascii.eqb c "010" || Ascii.eqb c "013" then
        c :: expandtabs_from 0 r
      else c :: expandtabs_from (S col) r
  end.
Definition expandtabs (s : string) : string := str (expandtabs_from 0 (chars s)).

(** [s.split(sep)] for a one-character [sep]: never empty *)
Fixpoint split_acc (sep : ascii) (cur : list ascii) (l : list ascii)
  : list string :=
  match l with
  | [] => [str (List.rev cur)]
  | c :: r =>
      if Ascii.eqb c sep then str (List.rev cur) :: split_acc sep [] r
      else split_acc sep (c :: cur) r
  end.
Definition split (sep : ascii) (s : string) : list string :=
  split_acc sep [] (chars s).

(** [s.split()]: maximal runs of non-whitespace *)
Fixpoint words_acc (cur : list ascii) (l : list ascii) : list string :=
  let flush := match cur with [] => [] | _ => [str (List.rev cur)] end in
  match l with
  | [] => flush
  | c :: r =>
      if is_space c then flush ++ words_acc [] r
      else words_acc (c :: cur) r
  end.
Definition words (s : string) : list string := words_acc [] (chars s).

(** [sep.join(l)] *)
Definition join (sep : string) (l : list string) : string := String.concat sep l.

Definition len (s : string) : nat := String.length s.

(** [s.startswith(p)], [s.endswith(p)], [p in s] *)
Definition startswith (p s : string) : bool := String.prefix p s.
Definition endswith (p s : string) : bool :=
  String.prefix (str (List.rev (chars p))) (str (List.rev (chars s))).
Fixpoint contains_from (p : string) (l : list ascii) : bool :=
  String.prefix p (str l) ||
  match l with
  | [] => false
  | _ :: r => contains_from p r
  end.
Definition contains (p s : string) : bool := contains_from p (chars s).

(** [s[0]] *)
Definition head (s : string) : result ascii :=
  match s with
  | EmptyString => Raise IndexError
  | String c _ => Ok c
  end.
(** [s[-1]] *)
Definition last (s : string) : result ascii :=
  match List.rev (chars s) with
  | [] => Raise IndexError
  | c :: _ => Ok c
  end.
(** [s[1:]], [s[:n]], [s[n:]], [s[:-1]] *)
Definition tail (s : string) : string :=
  match s with
  | EmptyString => EmptyString
  | String _ r => r
  end.
Definition take (n : nat) (s : string) : string := str (List.firstn n (chars s)).
Definition drop (n : nat) (s : string) : string := str (List.skipn n (chars s)).
Definition drop_last (s : string) : string := str (List.removelast (chars s)).

(** [re.fullmatch(r"[0-9]+", s)] *)
Definition all_digits (s : string) : bool :=
  match chars s with
  | [] => false
  | l => forallb is_digit l
  end.

(** ** [int(s, base)]

    After CPython's [PyLong_FromString]: surrounding whitespace, a sign,
    a base prefix (for base 0, 2, 8 or 16), then digits with single
    underscores between them.  In base 0 a decimal literal with a leading
    zero is accepted only when its value is zero. *)

Definition digit_value (c : ascii) : option Z :=
  let n := code c in
  if is_digit c then Some (Z.of_N n - 48)
  else if ((97 <=? n) && (n <=? 122))%N then Some (Z.of_N n - 87)
  else if ((65 <=? n) && (n <=? 90))%N then Some (Z.of_N n - 55)
  else None.

(** The digits of a literal in base [b], most significant first;
    [prev_us] tells that the previous character was an underscore. *)
Fixpoint digits (b : Z) (prev_us : bool) (acc : Z) (l : list ascii)
  : option Z :=
  match l with
  | [] => if prev_us then None else Some acc
  | c :: r =>
      if Ascii.eqb c "_" then
        if prev_us then None else digits b true acc r
      else
        match digit_value c with
        | Some d => if d <? b then digits b false (acc * b + d) r else None
        | None => None
        end
  end.

Definition prefix_base (c : ascii) : option Z :=
  if Ascii.eqb c "x" || Ascii.eqb c "X" then Some 16
  else if Ascii.eqb c "o" || Ascii.eqb c "O" then Some 8
  else if Ascii.eqb c "b" || Ascii.eqb c "B" then Some 2
  else None.

Definition int_unsigned (base : Z) (l : list ascii) : option Z :=
  let '(b, zero_only) :=
    if base =? 0 then
      match l with
      | "0"%char :: c :: _ =>
          match prefix_base c with
          | Some b => (b, false)
          | None => (10, true)
          end
      | _ => (10, false)
      end
    else (base, false) in
  let body :=
    match l with
    | "0"%char :: c :: r =>
        if bool_decide (prefix_base c = Some b) then
          match r with
          | "_"%char :: r' => r'
          | _ => r
          end
        else l
    | _ => l
    end in
  match body with
  | [] => None
  | c :: _ =>
      if Ascii.eqb c "_" then None
      else
        match digits b false 0 body with
        | Some v => if zero_only && negb (v =? 0) then None else Some v
        | None => None
        end
  end.

Definition int (base : Z) (s : string) : result Z :=
  of_option ValueError
    match chars (strip s) with
    | "+"%char :: r => int_unsigned base r
    | "-"%char :: r => Z.opp <$> int_unsigned base r
    | l => int_unsigned base l
    end.

(** [str(n)] and [hex(n)] *)
Definition of_int (n : Z) : string :=
  DecimalString.NilZero.string_of_int (Z.to_int n).
Definition hex (n : Z) : string :=
  let d := HexadecimalString.NilZero.string_of_uint
             (N.to_hex_uint (Z.to_N (Z.abs n))) in
  if n <? 0 then "-0x" ++ d else "0x" ++ d.

End PyStr.

Example py_int_examples :
  PyStr.int 16 "0x_1f" = Ok 31 /\ PyStr.int 0 "0_0" = Ok 0 /\
  PyStr.int 0 "012" = Raise ValueError /\ PyStr.int 10 "012" = Ok 12 /\
  PyStr.int 0 "-0x10" = Ok (-16) /\ PyStr.int 16 "0b101" = Ok 45313 /\
  PyStr.int 0 "0b101" = Ok 5 /\ PyStr.int 16 "0o17" = Raise ValueError /\
  PyStr.int 0 "1__0" = Raise ValueError /\ PyStr.int 0 "1_" = Raise ValueError /\
  PyStr.int 0 "0x" = Raise ValueError /\ PyStr.int 0 "+5" = Ok 5 /\
  PyStr.int 0 "1f" = Raise ValueError /\ PyStr.int 16 "1f" = Ok 31.
Proof. repeat split; reflexivity. Qed.

Example py_str_examples :
  PyStr.hex (-5) = "-0x5" /\ PyStr.hex 0 = "0x0" /\ PyStr.hex 255 = "0xff" /\
  PyStr.of_int (-3) = "-3" /\ PyStr.of_int 0 = "0" /\
  PyStr.words "  mov  x10, #1 " = ["mov"; "x10,"; "#1"] /\
  PyStr.split "+" "a+b+" = ["a"; "b"; ""] /\
  PyStr.strip_chars "[]" "[x20," = "x20," /\
  PyStr.endswith ":" "loop:" = true /\ PyStr.contains ".hi" "evwait.hi" = true.
Proof. repeat split; reflexivity. Qed.

(** ** Branch arithmetic *)

Definition resolve_rel (to branch : Z) : Z := (to - branch) / 8 - 1.

Definition to_int16 (value : Z) : result Z :=
  _ <- py_assert (value <? 36768) ;;
  _ <- py_assert (value >=? -32768) ;;
  Ok (Z.land value 0xffff).

(** How a reader of the word decodes the stored 16 bits as a signed distance. *)
Definition decode_int16 (w : Z) : Z :=
  let u := Z.land w 0xffff in
  if u <? 32768 then u else u - 65536.

(** ** Buffers *)

(** A pending branch: the tuple [(ref, offset, type_)].  [ref] is a label
    name for a symbolic label and a number for a numeric one. *)
Inductive label_key : Set :=
| LName (name : string)
| LNum (n : Z).

Record Ref : Set := mkRef {
  ref_label : label_key;
  ref_offset : Z;
  ref_type : string }.

Module Level.

Record t : Type := mk {
  id : Z;
  indent : nat;
  buffer : list Z;
  call_addr_offset : option Z;
  call_len_offset : option Z;
  labels : gmap string Z;
  label_refs : list Ref;
  num_labels : gmap Z Z;
  num_refs : gmap Z (list Ref) }.

(** [Level(indent)], for the value [i] of [Buffer.id] *)
Definition new (i : Z) (ind : nat) : t :=
  mk i ind [] None None ∅ [] ∅ ∅.

Definition with_buffer (b : list Z) (l : t) : t :=
  mk (id l) (indent l) b (call_addr_offset l) (call_len_offset l)
     (labels l) (label_refs l) (num_labels l) (num_refs l).
Definition with_call (a n : option Z) (l : t) : t :=
  mk (id l) (indent l) (buffer l) a n
     (labels l) (label_refs l) (num_labels l) (num_refs l).
Definition with_labels (m : gmap string Z) (l : t) : t :=
  mk (id l) (indent l) (buffer l) (call_addr_offset l) (call_len_offset l)
     m (label_refs l) (num_labels l) (num_refs l).
Definition with_label_refs (r : list Ref) (l : t) : t :=
  mk (id l) (indent l) (buffer l) (call_addr_offset l) (call_len_offset l)
     (labels l) r (num_labels l) (num_refs l).
Definition with_num_labels (m : gmap Z Z) (l : t) : t :=
  mk (id l) (indent l) (buffer l) (call_addr_offset l) (call_len_offset l)
     (labels l) (label_refs l) m (num_refs l).
Definition with_num_refs (m : gmap Z (list Ref)) (l : t) : t :=
  mk (id l) (indent l) (buffer l) (call_addr_offset l) (call_len_offset l)
     (labels l) (label_refs l) (num_labels l) m.

Definition offset (l : t) : Z := PyList.len (buffer l) * 8.

(** [self.buffer.append(code)] *)
Definition append (code : Z) (l : t) : t :=
  with_buffer (buffer l ++ [code]) l.

Definition buffer_add_value (ofs value : Z) (l : t) : result t :=
  old <- PyList.get (buffer l) (ofs / 8) ;;
  b <- PyList.set (buffer l) (ofs / 8) (old + value) ;;
  Ok (with_buffer b l).

Fixpoint process_relocs (refs : list Ref) (to : option Z) (l : t) : result t :=
  match refs with
  | [] => Ok l
  | r :: refs' =>
      _ <- py_assert (String.eqb (ref_type r) "rel") ;;
      goto <- match to with
              | None =>
                  match ref_label r with
                  | LName name => of_option KeyError (labels l !! name)
                  | LNum _ => Raise KeyError
                  end
              | Some g => Ok g
              end ;;
      value <- to_int16 (resolve_rel goto (ref_offset r)) ;;
      l' <- buffer_add_value (ref_offset r) value l ;;
      process_relocs refs' to l'
  end.

Definition finish (l : t) : result t :=
  process_relocs (label_refs l) None l.

(** [__repr__] *)
Definition repr (l : t) : string :=
  let buf := PyStr.join " " (List.map PyStr.hex (buffer l)) in
  "buffer " ++ PyStr.of_int (id l) ++ " " ++ PyStr.of_int (offset l)
    ++ " 0x200f " ++ buf.

End Level.

Module Alloc.

Record t : Set := mk {
  id : Z;
  size : Z;
  flags : Z;
  buffer : list Z }.

(** [Alloc(size, flags)], for the value [i] of [Buffer.id] *)
Definition new (i : Z) (size flags : Z) : t := mk i size flags [].

Definition default_flags : Z := 0x280f.

Definition repr (a : t) : string :=
  let buf := PyStr.join " " (List.map PyStr.hex (buffer a)) in
  "buffer " ++ PyStr.of_int (id a) ++ " " ++ PyStr.of_int (size a)
    ++ " " ++ PyStr.hex (flags a) ++ " " ++ buf.

End Alloc.

(** A relocation: the tuple [(dst, offset, src, src_offset)]: the word at
    byte [offset] of buffer [dst] refers to byte [src_offset] of buffer
    [src]. *)
Record Reloc : Set := mkReloc {
  r_dst : Z;
  r_offset : Z;
  r_src : Z;
  r_src_offset : Z }.

Definition fmt_reloc (name : string) (r : Reloc) : string :=
  name ++ " " ++ PyStr.of_int (r_dst r) ++ "+" ++ PyStr.of_int (r_offset r)
    ++ " " ++ PyStr.of_int (r_src r) ++ "+" ++ PyStr.of_int (r_src_offset r).

(** An element of an execution-script entry.  [AId] is an integer that is a
    buffer id; it prints as any integer. *)
Inductive atom : Set :=
| AStr (s : string)
| AInt (n : Z)
| AId (i : Z).

Definition atom_str (a : atom) : string :=
  match a with
  | AStr s => s
  | AInt n => PyStr.of_int n
  | AId i => PyStr.of_int i
  end.

(** An entry of [self.exe]: a Python list (["exe", n, ...], or the words of
    a [!raw] line), which [+=] extends, or a tuple, for which [+= [...]]
    raises [TypeError]. *)
Record ExeEntry : Set := mkExe {
  is_list : bool;
  items : list atom }.

Definition fmt_exe (e : ExeEntry) : string :=
  PyStr.join " " (List.map atom_str (items e)).

Definition exe_extend (e : ExeEntry) (more : list atom) : result ExeEntry :=
  if is_list e then Ok (mkExe true (items e ++ more)) else Raise TypeError.

(** What the program prints while assembling *)
Inductive Print : Set :=
| PLabelReuse
| PConfusedExe
| PUnknownCommand (orig_line : string)
| PMismatch (code given_code : Z) (orig_line : string).

(** ** Python dictionaries that are iterated: insertion order is kept, and
    assigning to a key that is present keeps its place. *)
Module Dict.

Fixpoint get {V} (k : string) (d : list (string * V)) : result V :=
  match d with
  | [] => Raise KeyError
  | (k', v) :: r => if String.eqb k k' then Ok v else get k r
  end.

Fixpoint set {V} (k : string) (v : V) (d : list (string * V))
  : list (string * V) :=
  match d with
  | [] => [(k, v)]
  | (k', v') :: r =>
      if String.eqb k k' then (k, v) :: r else (k', v') :: set k v r
  end.

End Dict.

(** ** The assembling context *)

(** The input tables.  A value of [memory] is a size or a pair
    [(size, flags)]; a word of a descriptor table is an integer, the name
    of a buffer, or a pair [(name, offset)]. *)
Inductive MemSpec : Set :=
| MSize (size : Z)
| MPair (size flags : Z).

Inductive DescWord : Set :=
| DInt (w : Z)
| DName (alloc : string)
| DRef (alloc : string) (offset : Z).

Module Context.

Record t : Type := mk {
  arena : list Level.t;       (* every Level object created, by creation *)
  levels : list nat;
  l : option nat;
  allocs : list (string * Alloc.t);
  completed : list nat;
  reloc : list Reloc;
  reloc_split : list Reloc;
  exe : list ExeEntry;
  last_exe : option Z;
  is_call : bool;
  Buffer_id : Z;              (* the class attribute [Buffer.id] *)
  out : list Print }.

(** [Context()], in a process whose [Buffer.id] is [i] *)
Definition init (i : Z) : t :=
  mk [] [] None [] [] [] [] [] None false i [].

Definition with_arena (a : list Level.t) (c : t) : t :=
  mk a (levels c) (l c) (allocs c) (completed c) (reloc c) (reloc_split c)
     (exe c) (last_exe c) (is_call c) (Buffer_id c) (out c).
Definition with_levels (v : list nat) (c : t) : t :=
  mk (arena c) v (l c) (allocs c) (completed c) (reloc c) (reloc_split c)
     (exe c) (last_exe c) (is_call c) (Buffer_id c) (out c).
Definition with_l (v : option nat) (c : t) : t :=
  mk (arena c) (levels c) v (allocs c) (completed c) (reloc c) (reloc_split c)
     (exe c) (last_exe c) (is_call c) (Buffer_id c) (out c).
Definition with_allocs (v : list (string * Alloc.t)) (c : t) : t :=
  mk (arena c) (levels c) (l c) v (completed c) (reloc c) (reloc_split c)
     (exe c) (last_exe c) (is_call c) (Buffer_id c) (out c).
Definition with_completed (v : list nat) (c : t) : t :=
  mk (arena c) (levels c) (l c) (allocs c) v (reloc c) (reloc_split c)
     (exe c) (last_exe c) (is_call c) (Buffer_id c) (out c).
Definition with_reloc (v : list Reloc) (c : t) : t :=
  mk (arena c) (levels c) (l c) (allocs c) (completed c) v (reloc_split c)
     (exe c) (last_exe c) (is_call c) (Buffer_id c) (out c).
Definition with_reloc_split (v : list Reloc) (c : t) : t :=
  mk (arena c) (levels c) (l c) (allocs c) (completed c) (reloc c) v
     (exe c) (last_exe c) (is_call c) (Buffer_id c) (out c).
Definition with_exe (v : list ExeEntry) (c : t) : t :=
  mk (arena c) (levels c) (l c) (allocs c) (completed c) (reloc c)
     (reloc_split c) v (last_exe c) (is_call c) (Buffer_id c) (out c).
Definition with_last_exe (v : option Z) (c : t) : t :=
  mk (arena c) (levels c) (l c) (allocs c) (completed c) (reloc c)
     (reloc_split c) (exe c) v (is_call c) (Buffer_id c) (out c).
Definition with_is_call (v : bool) (c : t) : t :=
  mk (arena c) (levels c) (l c) (allocs c) (completed c) (reloc c)
     (reloc_split c) (exe c) (last_exe c) v (Buffer_id c) (out c).
Definition with_Buffer_id (v : Z) (c : t) : t :=
  mk (arena c) (levels c) (l c) (allocs c) (completed c) (reloc c)
     (reloc_split c) (exe c) (last_exe c) (is_call c) v (out c).

(** [print(...)] *)
Definition print (p : Print) (c : t) : t :=
  mk (arena c) (levels c) (l c) (allocs c) (completed c) (reloc c)
     (reloc_split c) (exe c) (last_exe c) (is_call c) (Buffer_id c)
     (out c ++ [p]).

(** The Level object behind a reference *)
Definition deref (c : t) (r : nat) : result Level.t :=
  of_option IndexError (arena c !! r).

(** The object [self.l]; an attribute of [None] is an [AttributeError] *)
Definition cur (c : t) : result Level.t :=
  match l c with
  | None => Raise AttributeError
  | Some r => deref c r
  end.

(** Mutation of the object [self.l] *)
Definition set_cur (lv : Level.t) (c : t) : t :=
  match l c with
  | None => c
  | Some r => with_arena (<[r := lv]> (arena c)) c
  end.

(** [Level(indent)]: the new object and its reference *)
Definition new_level (ind : nat) (c : t) : nat * t :=
  (List.length (arena c),
   with_Buffer_id (Buffer_id c + 1)
     (with_arena (arena c ++ [Level.new (Buffer_id c) ind]) c)).

(** [self.levels.append(Level(indent))] *)
Definition push_level (ind : nat) (c : t) : t :=
  let '(r, c1) := new_level ind c in
  with_levels (levels c1 ++ [r]) c1.

(** [Alloc(size, flags)] *)
Definition new_alloc (size flags : Z) (c : t) : Alloc.t * t :=
  (Alloc.new (Buffer_id c) size flags, with_Buffer_id (Buffer_id c + 1) c).

Definition set_l (c : t) : t :=
  match List.rev (levels c) with
  | [] => c
  | top :: _ => with_l (Some top) c
  end.

(** The body of [pop_until] after [l = self.levels.pop()]: the popped
    Level [child] has been appended to [self.completed] and [self.l]
    is its parent, whose call site is patched. *)
Definition patch_call_site (child : Level.t) (c : t) : result t :=
  let buf_len := Level.offset child in
  r <- cur c ;;
  ca <- of_option TypeError (Level.call_addr_offset r) ;;
  let c1 := with_reloc
              (reloc c ++ [mkReloc (Level.id r) (ca * 8) (Level.id child) 0]) c in
  cl <- of_option TypeError (Level.call_len_offset r) ;;
  w <- PyList.get (Level.buffer r) cl ;;
  b1 <- PyList.set (Level.buffer r) cl
          (Z.land w (Z.shiftl 0xffff 48) + buf_len) ;;
  w' <- PyList.get b1 ca ;;
  b2 <- PyList.set b1 ca (Z.land w' (Z.shiftl 0xffff 48)) ;;
  Ok (set_cur (Level.with_call None None (Level.with_buffer b2 r)) c1).

(** The loop of [pop_until]; [stack] is [self.levels], top first.  Every
    turn pops one Level, so the loop is a recursion on the stack. *)
Fixpoint pop_loop (stack : list nat) (ind : nat) (c : t) : result t :=
  top <- cur c ;;
  if Nat.eqb (Level.indent top) ind then Ok c
  else
    match stack with
    | [] => Raise IndexError
    | popped :: rest =>
        let c1 := with_completed (completed c ++ [popped])
                    (with_levels (List.rev rest) c) in
        let c2 := set_l c1 in
        match rest with
        | [] => Ok c2
        | _ :: _ =>
            child <- deref c2 popped ;;
            c3 <- patch_call_site child c2 ;;
            pop_loop rest ind c3
        end
    end.

Definition pop_until (ind : nat) (c : t) : result t :=
  pop_loop (List.rev (levels c)) ind c.

(** The first block of [flush_exe]: the Level at the top of the stack
    is popped, finished and completed, and an empty Level replaces it. *)
Definition close_root (ind : nat) (c : t) : result t :=
  '(r, rest) <- PyList.pop (levels c) ;;
  lv <- deref c r ;;
  lv' <- Level.finish lv ;;
  let c1 := with_arena (<[r := lv']> (arena c)) (with_levels rest c) in
  let c2 := with_completed (completed c1 ++ [r]) c1 in
  Ok (set_l (push_level ind c2)).

(** The rest of [flush_exe]: the last completed Level joins the open
    [exe] entry. *)
Definition attach_exe (ind : nat) (c : t) : result t :=
  if PyList.len (exe c) =? 0 then Ok c
  else
    match last_exe c with
    | None => Ok (print PConfusedExe c)
    | Some le =>
        c <- match List.rev (completed c) with
             | [] => Ok c
             | r :: _ =>
                 p <- deref c r ;;
                 _ <- py_assert (Nat.eqb (Level.indent p) ind) ;;
                 e <- PyList.get (exe c) le ;;
                 e' <- exe_extend e [AId (Level.id p); AInt (Level.offset p)] ;;
                 ex <- PyList.set (exe c) le e' ;;
                 Ok (with_exe ex c)
             end ;;
        Ok (with_last_exe None c)
    end.

Definition flush_exe (c : t) : result t :=
  r0 <- PyList.get (levels c) 0 ;;
  root <- deref c r0 ;;
  let ind := Level.indent root in
  c <- pop_until ind c ;;
  r0 <- PyList.get (levels c) 0 ;;
  root <- deref c r0 ;;
  c <- (if negb (PyList.len (Level.buffer root) =? 0)
        then close_root ind c else Ok c) ;;
  attach_exe ind c.

(** *** The registry passes *)

(** [assemble_shader]; the encoder [asm.parse_asm] of one shader
    instruction is another module's and is a parameter. *)
Definition keep_shader_line (ln : string) : bool :=
  match ln with
  | EmptyString => false
  | String ch _ => negb (PyStr.mem ch "#@")
  end.

Fixpoint map_result {A B} (f : A -> result B) (xs : list A) : result (list B) :=
  match xs with
  | [] => Ok []
  | x :: r => y <- f x ;; ys <- map_result f r ;; Ok (y :: ys)
  end.

Definition assemble_shader (parse_asm : string -> result Z) (text : string)
  : result (list Z) :=
  let lines := PyStr.split "010" (PyStr.strip text) in
  map_result parse_asm (List.filter keep_shader_line lines).

Fixpoint add_shaders (parse_asm : string -> result Z)
    (shaders : list (string * string)) (c : t) : result t :=
  match shaders with
  | [] => Ok c
  | (sh, text) :: rest =>
      qwords <- assemble_shader parse_asm text ;;
      let sh := PyStr.lower sh in
      let '(a, c1) := new_alloc (PyList.len qwords * 8) 0x2017 c in
      let a := Alloc.mk (Alloc.id a) (Alloc.size a) (Alloc.flags a) qwords in
      add_shaders parse_asm rest (with_allocs (Dict.set sh a (allocs c1)) c1)
  end.

Fixpoint add_memory (memory : list (string * MemSpec)) (c : t) : t :=
  match memory with
  | [] => c
  | (m, f) :: rest =>
      let '(size, flags) :=
        match f with
        | MSize n => (n, Alloc.default_flags)
        | MPair n fl => (n, fl)
        end in
      let '(a, c1) := new_alloc size flags c in
      add_memory rest (with_allocs (Dict.set m a (allocs c1)) c1)
  end.

(** The loop over the words of one table: [buf] collects the 32-bit
    entries, a reference to a buffer takes two of them. *)
Fixpoint desc_words (a_id : Z) (words : list DescWord) (buf : list Z) (c : t)
  : result (list Z * t) :=
  match words with
  | [] => Ok (buf, c)
  | w :: rest =>
      match w with
      | DInt n => desc_words a_id rest (buf ++ [n]) c
      | DName alloc | DRef alloc _ =>
          let offset := match w with DRef _ o => o | _ => 0 end in
          ref <- Dict.get alloc (allocs c) ;;
          let c1 := with_reloc
                      (reloc c ++ [mkReloc a_id (PyList.len buf * 4)
                                           (Alloc.id ref) offset]) c in
          desc_words a_id rest (buf ++ [0; 0]) c1
      end
  end.

(** [[x | (y << 32) for x, y in zip(it, it)]] over one iterator [it] *)
Fixpoint pack_pairs (buf : list Z) : list Z :=
  match buf with
  | x :: y :: rest => Z.lor x (Z.shiftl y 32) :: pack_pairs rest
  | _ => []
  end.

Fixpoint add_descriptors (descriptors : list (string * list DescWord)) (c : t)
  : result t :=
  match descriptors with
  | [] => Ok c
  | (d, words) :: rest =>
      let '(a, c1) := new_alloc 0 Alloc.default_flags c in
      '(buf, c2) <- desc_words (Alloc.id a) words [] c1 ;;
      let buffer := pack_pairs buf in
      let a := Alloc.mk (Alloc.id a) (PyList.len buffer * 8) (Alloc.flags a)
                        buffer in
      add_descriptors rest (with_allocs (Dict.set d a (allocs c2)) c2)
  end.

(** *** Serialisation: [__repr__] *)

Definition completed_levels (c : t) : list Level.t :=
  omap (fun r => arena c !! r) (completed c).

Definition repr_lines (c : t) : list string :=
  List.map (fun kv => Alloc.repr (snd kv)) (allocs c)
    ++ List.map Level.repr (completed_levels c)
    ++ List.map (fmt_reloc "reloc") (reloc c)
    ++ List.map (fmt_reloc "relsplit") (reloc_split c)
    ++ List.map fmt_exe (exe c).

Definition repr (c : t) : string := PyStr.join (String "010" "") (repr_lines c).

End Context.

(** ** Operands *)

Module Operand.

Definition hx (word : string) : result Z := PyStr.int 16 word.

Definition reg (word : string) : result Z := hx (PyStr.tail word).

(** The last branch of [val]: [int(word.strip("#"), 0)], below [1 << 48] *)
Definition val_plain (word : string) : result Z :=
  value <- PyStr.int 0 (PyStr.strip_chars "#" word) ;;
  _ <- py_assert (value <? Z.shiftl 1 48) ;;
  Ok value.

(** [val].  The halves of an [i16:] operand hold no colon, so the two
    recursive calls take the last branch.  A [float:] operand needs the
    IEEE-754 encoding of a float and is left out. *)
Definition val (word : string) : result Z :=
  if PyStr.startswith "float:" word then Raise Unsupported
  else if PyStr.startswith "i16:" word then
    halves <- PyList.get (PyStr.split ":" word) 1 ;;
    match PyStr.split "," halves with
    | [lo; hi] =>
        lo <- val_plain lo ;;
        hi <- val_plain hi ;;
        _ <- py_assert (lo <? Z.shiftl 1 16) ;;
        _ <- py_assert (hi <? Z.shiftl 1 16) ;;
        Ok (Z.lor (Z.land lo 0xffff) (Z.shiftl hi 16))
    | _ => Raise ValueError
    end
  else val_plain word.

(** [a << n] and [a >> n]: a negative count is a [ValueError] *)
Definition shl (a n : Z) : result Z :=
  if n <? 0 then Raise ValueError else Ok (Z.shiftl a n).
Definition shr (a n : Z) : result Z :=
  if n <? 0 then Raise ValueError else Ok (Z.shiftr a n).

(** [s[i]], [s[i][0]], [s[i][-1]] *)
Definition tok (s : list string) (i : Z) : result string := PyList.get s i.
Definition tok0 (s : list string) (i : Z) : result ascii :=
  w <- tok s i ;; PyStr.head w.
Definition tok_last (s : list string) (i : Z) : result ascii :=
  w <- tok s i ;; PyStr.last w.

Definition len_is (s : list string) (n : Z) : bool := PyList.len s =? n.

Definition str_in (w : string) (ws : list string) : bool :=
  existsb (String.eqb w) ws.

(** A dictionary literal indexed by a string *)
Fixpoint lookup (k : string) (d : list (string * Z)) : option Z :=
  match d with
  | [] => None
  | (k', v) :: r => if String.eqb k k' then Some v else lookup k r
  end.

(** [re.fullmatch(r"[0-9]+", w)] and [re.fullmatch(r"[0-9]+c", w)] *)
Definition is_num (w : string) : bool := PyStr.all_digits w.
Definition is_num_suffixed (c : ascii) (w : string) : bool :=
  match PyStr.last w with
  | Ok c' => Ascii.eqb c c' && PyStr.all_digits (PyStr.drop_last w)
  | Raise _ => false
  end.

(** [re.match(r"[0-9a-f]{16} ", line)] *)
Definition has_given_code (line : string) : bool :=
  match List.skipn 16 (PyStr.chars line) with
  | c :: _ =>
      Ascii.eqb c " " && forallb PyStr.is_lower_hex (List.firstn 16 (PyStr.chars line))
  | [] => false
  end.

End Operand.

(** ** The instruction encoders

    Each function is one branch of the [if]/[elif] chain of
    [Context.interpret] that reads nothing but the tokens [s] of the line;
    it returns [(cmd, addr, value)]. *)

Module Encode.
Import Operand.

Definition word3 : Type := Z * Z * Z.

Definition unk (s : list string) : result word3 :=
  if len_is s 2 then
    w <- tok s 1 ;;
    h <- hx w ;;
    Ok (Z.shiftr h 56, Z.land (Z.shiftr h 48) 0xff, Z.land h 0xffffffffffff)
  else
    _ <- py_assert (len_is s 4) ;;
    w2 <- tok s 2 ;; cmd <- hx w2 ;;
    w1 <- tok s 1 ;; addr <- hx w1 ;;
    w3 <- tok s 3 ;; value <- val w3 ;;
    Ok (cmd, addr, value).

Definition nop (s : list string) : result word3 :=
  if len_is s 1 then Ok (0, 0, 0)
  else
    _ <- py_assert (len_is s 3) ;;
    w1 <- tok s 1 ;; addr <- hx w1 ;;
    w2 <- tok s 2 ;; value <- val w2 ;;
    Ok (0, addr, value).

(** The guard [s[2][0] in "xw"] of the first [mov] branch *)
Definition mov_is_reg (s : list string) : result bool :=
  c <- tok0 s 2 ;; Ok (PyStr.mem c "xw").

Definition width_cmd (c : ascii) (x w : Z) : result Z :=
  if Ascii.eqb c "x" then Ok x
  else if Ascii.eqb c "w" then Ok w
  else Raise KeyError.

Definition mov_reg (s : list string) : result word3 :=
  _ <- py_assert (len_is s 3) ;;
  c1 <- tok0 s 1 ;; c2 <- tok0 s 2 ;;
  _ <- py_assert (Ascii.eqb c1 c2) ;;
  cmd <- width_cmd c1 17 16 ;;
  w1 <- tok s 1 ;; addr <- reg w1 ;;
  w2 <- tok s 2 ;; r2 <- reg w2 ;;
  Ok (cmd, addr, Z.shiftl r2 40).

Definition mov_imm (s : list string) : result word3 :=
  _ <- py_assert (len_is s 3) ;;
  c1 <- tok0 s 1 ;;
  cmd <- width_cmd c1 1 2 ;;
  w1 <- tok s 1 ;; addr <- reg w1 ;;
  w2 <- tok s 2 ;; value <- val w2 ;;
  Ok (cmd, addr, value).

Definition add (s : list string) : result word3 :=
  _ <- py_assert (len_is s 4) ;;
  c1 <- tok0 s 1 ;; c2 <- tok0 s 2 ;;
  _ <- py_assert (Ascii.eqb c1 c2) ;;
  _ <- py_assert (PyStr.mem c1 "wx") ;;
  let cmd := if Ascii.eqb c1 "w" then 16 else 17 in
  w1 <- tok s 1 ;; addr <- reg w1 ;;
  w2 <- tok s 2 ;; r2 <- reg w2 ;;
  w3 <- tok s 3 ;; v <- val w3 ;;
  Ok (cmd, addr, Z.lor (Z.shiftl r2 40) (Z.land v 0xffffffff)).

Definition resource_types : list (string * Z) :=
  [("compute", 0); ("fragment", 1); ("tiler", 2); ("idvs", 3)].

Fixpoint resources_loop (ts : list string) (value : Z) : result Z :=
  match ts with
  | [] => Ok value
  | t :: r =>
      match lookup t resource_types with
      | Some i => resources_loop r (Z.lor value (Z.shiftl 1 i))
      | None => n <- PyStr.int 0 t ;; resources_loop r (Z.lor value n)
      end
  end.

Definition resources (s : list string) : result word3 :=
  _ <- py_assert (PyList.len s >=? 2) ;;
  value <- resources_loop (PyList.from 1 s) 0 ;;
  Ok (34, 0, value).

Definition fragment_arg_map : list (string * list (string * Z)) :=
  [("tem", [("0", 0); ("1", 1)]);
   ("render", [("z_order", 0); ("horizontal", 0x10); ("vertical", 0x20);
               ("reverse_horizontal", 0x50); ("reverse_vertical", 0x60)]);
   ("unk", [("0", 0); ("1", Z.shiftl 1 32)])].

Fixpoint fragment_loop (kvs : list (string * string)) (value : Z) : result Z :=
  match kvs with
  | [] => Ok value
  | (arg, v) :: r =>
      m <- Dict.get arg fragment_arg_map ;;
      x <- of_option KeyError (lookup v m) ;;
      fragment_loop r (Z.lor value x)
  end.

(** [zip(s[1::2], s[2::2])] *)
Fixpoint pairs_of (l : list string) : list (string * string) :=
  match l with
  | a :: b :: r => (a, b) :: pairs_of r
  | _ => []
  end.

Definition fragment (s : list string) : result word3 :=
  value <- (if len_is s 1 then Ok 0
            else fragment_loop (pairs_of (PyList.from 1 s)) 0) ;;
  Ok (7, 0, value).

Fixpoint wait_sum (xs : list string) : result Z :=
  match xs with
  | [] => Ok 0
  | x :: r =>
      n <- PyStr.int 10 x ;;
      b <- shl 1 n ;;
      rest <- wait_sum r ;;
      Ok (b + rest)
  end.

Definition wait (s : list string) : result word3 :=
  _ <- py_assert (len_is s 2) ;;
  w1 <- tok s 1 ;;
  value <- (if String.eqb w1 "all" then Ok 255
            else wait_sum (PyStr.split "," w1)) ;;
  Ok (3, 0, Z.shiftl value 16).

Definition slot (s : list string) : result word3 :=
  _ <- py_assert (len_is s 2) ;;
  w1 <- tok s 1 ;;
  value <- PyStr.int 0 w1 ;;
  Ok (23, 0, value).

Definition idvs_modes : list (string * Z) :=
  [("none", 0); ("points", 1); ("lines", 2); ("line-strip", 4);
   ("line-loop", 6); ("triangles", 8); ("triangle-strip", 10);
   ("triangle-fan", 12); ("polygon", 13); ("quads", 14)].
Definition idvs_itypes : list (string * Z) :=
  [("none", 0); ("uint8", 1); ("uint16", 2); ("uint32", 3)].

Definition named_or_int (d : list (string * Z)) (w : string) : result Z :=
  match lookup w d with
  | Some v => Ok v
  | None => PyStr.int 10 w
  end.

Definition idvs (s : list string) : result word3 :=
  _ <- py_assert (len_is s 6) ;;
  w1 <- tok s 1 ;; unk <- val w1 ;;
  w2 <- tok s 2 ;; _ <- py_assert (String.eqb w2 "mode") ;;
  w3 <- tok s 3 ;; mode <- named_or_int idvs_modes w3 ;;
  w4 <- tok s 4 ;; _ <- py_assert (String.eqb w4 "index") ;;
  w5 <- tok s 5 ;; index <- named_or_int idvs_itypes w5 ;;
  Ok (6, 0, Z.lor (Z.lor (Z.shiftl unk 32) (Z.shiftl index 8)) mode).

Definition flush_tiler (s : list string) : result word3 :=
  _ <- py_assert (len_is s 1) ;;
  Ok (9, 0, 0).

(** The checks shared by the memory instructions: [s] has 3 or 4 tokens,
    [s[2]] opens a bracket, the last token closes it; then brackets are
    stripped from every token and [s[2]] must name an [x] register. *)
Definition bracketed (s : list string) : result (list string) :=
  _ <- py_assert (len_is s 3 || len_is s 4) ;;
  c <- tok0 s 2 ;; _ <- py_assert (Ascii.eqb c "[") ;;
  c <- tok_last s (-1) ;; _ <- py_assert (Ascii.eqb c "]") ;;
  let s := List.map (PyStr.strip_chars "[]") s in
  c <- tok0 s 2 ;; _ <- py_assert (Ascii.eqb c "x") ;;
  Ok s.

Definition mem_offset (s : list string) : result Z :=
  if len_is s 4 then w3 <- tok s 3 ;; val w3 else Ok 0.

(** The guard [s[1] in ("cycles", "timestamp")] *)
Definition str_is_timer (s : list string) : result bool :=
  w1 <- tok s 1 ;; Ok (str_in w1 ["cycles"; "timestamp"]).

Definition str_timer (s : list string) : result word3 :=
  s <- bracketed s ;;
  w1 <- tok s 1 ;;
  let type_ := if String.eqb w1 "cycles" then 1 else 0 in
  w2 <- tok s 2 ;; dest <- reg w2 ;;
  offset <- mem_offset s ;;
  o16 <- to_int16 offset ;;
  Ok (40, 0, Z.lor (Z.lor (Z.shiftl dest 40) (Z.shiftl type_ 32)) o16).

(** [[x[-1] for x in s].index("}")] *)
Fixpoint last_chars (s : list string) : result (list ascii) :=
  match s with
  | [] => Ok []
  | x :: r => c <- PyStr.last x ;; cs <- last_chars r ;; Ok (c :: cs)
  end.
Fixpoint index_of (c : ascii) (l : list ascii) (i : nat) : result nat :=
  match l with
  | [] => Raise ValueError
  | c' :: r => if Ascii.eqb c c' then Ok i else index_of c r (S i)
  end.

(** The loop over the register list of [ldr]/[str]; [src] is [None]
    until the first register is read. *)
Fixpoint reglist_loop (rs : list string) (src : option Z) (mask : Z)
  : result (option Z * Z) :=
  match rs with
  | [] => Ok (src, mask)
  | r :: rest =>
      let r := PyStr.split "-" r in
      _ <- py_assert (len_is r 1 || len_is r 2) ;;
      regno <- Context.map_result reg r ;;
      r0 <- PyList.get regno 0 ;;
      let src' := match src with None => r0 | Some x => x end in
      new <- (if len_is r 1 then
                c <- tok0 r 0 ;;
                _ <- py_assert (PyStr.mem c "xw") ;;
                let new := if Ascii.eqb c "x" then 3 else 1 in
                a <- shl new r0 ;; shr a src'
              else
                r1 <- PyList.get regno 1 ;;
                _ <- py_assert (r1 >? r0) ;;
                a <- shl 2 r1 ;; b <- shl 1 r0 ;; shr (a - b) src') ;;
      _ <- py_assert (new <? Z.shiftl 1 16) ;;
      _ <- py_assert (Z.land mask new =? 0) ;;
      reglist_loop rest (Some src') (Z.lor mask new)
  end.

Definition ldr_str (s : list string) : result word3 :=
  reglist <- tok s 1 ;;
  c <- PyStr.head reglist ;;
  '(reglist, s) <-
    (if Ascii.eqb c "{" then
       cs <- last_chars s ;;
       end_ <- index_of "}" cs 0 ;;
       Ok (inr (List.firstn end_ (PyList.from 1 s)),
           (List.firstn 1 s ++ PyList.from end_ s)%list)
     else Ok (inl reglist, s)) ;;
  s <- bracketed s ;;
  '(src, mask) <-
    match reglist with
    | inl reglist =>
        c <- PyStr.head reglist ;;
        _ <- py_assert (PyStr.mem c "xw") ;;
        src <- reg reglist ;;
        Ok (src, if Ascii.eqb c "x" then 3 else 1)
    | inr reglist =>
        let rs := PyStr.split ","
                    (PyStr.strip_chars "{}" (PyStr.join "," reglist)) in
        '(src, mask) <- reglist_loop rs None 0 ;;
        src <- of_option TypeError src ;;
        Ok (src, mask)
    end ;;
  w2 <- tok s 2 ;; dest <- reg w2 ;;
  offset <- mem_offset s ;;
  w0 <- tok s 0 ;;
  let cmd := if String.eqb w0 "ldr" then 20 else 21 in
  o16 <- to_int16 offset ;;
  Ok (cmd, src,
      Z.lor (Z.lor (Z.shiftl dest 40) (Z.shiftl mask 16)) o16).

Definition ev (s : list string) : result word3 :=
  _ <- py_assert ((5 <=? PyList.len s) && (PyList.len s <? 8)) ;;
  c1 <- tok0 s 1 ;; _ <- py_assert (PyStr.mem c1 "wx") ;;
  w2 <- tok s 2 ;; _ <- py_assert (PyStr.startswith "[x" w2) ;;
  c <- PyStr.last w2 ;; _ <- py_assert (Ascii.eqb c "]") ;;
  w3 <- tok s 3 ;; _ <- py_assert (String.eqb w3 "unk") ;;
  let s := List.map (PyStr.strip_chars "[]()") s in
  w1 <- tok s 1 ;; val_ <- reg w1 ;;
  w2 <- tok s 2 ;; dst <- reg w2 ;;
  w4 <- tok s 4 ;; mask <- hx w4 ;;
  let irq := if str_in "irq" s then 0 else 1 in
  let unk0 := if str_in "unk0" s then 1 else 0 in
  w0 <- tok s 0 ;; c1 <- tok0 s 1 ;;
  let cmd := if Ascii.eqb c1 "w"
             then (if String.eqb w0 "evadd" then 37 else 38)
             else (if String.eqb w0 "evadd" then 51 else 52) in
  Ok (cmd, 1,
      Z.lor (Z.lor (Z.lor (Z.lor (Z.shiftl dst 40) (Z.shiftl val_ 32))
                          (Z.shiftl mask 16)) (Z.shiftl irq 2)) unk0).

Definition evwait (s : list string) : result word3 :=
  w0 <- tok s 0 ;;
  _ <- py_assert (forallb (fun m => str_in m ["lo"; "hi"; "inherit"; "no_error"])
                    (PyList.from 1 (PyStr.split "." w0))) ;;
  _ <- py_assert (len_is s 3) ;;
  c1 <- tok0 s 1 ;; _ <- py_assert (PyStr.mem c1 "wx") ;;
  c <- tok0 s 2 ;; _ <- py_assert (Ascii.eqb c "[") ;;
  c <- tok_last s (-1) ;; _ <- py_assert (Ascii.eqb c "]") ;;
  let s := List.map (PyStr.strip_chars "[]()") s in
  w2 <- tok s 2 ;; src <- reg w2 ;;
  w1 <- tok s 1 ;; val_ <- reg w1 ;;
  w0 <- tok s 0 ;;
  let cond := if PyStr.contains ".hi" w0 then 1 else 0 in
  let error := if PyStr.contains ".no_error" w0 then 1 else 0 in
  c1 <- tok0 s 1 ;;
  let cmd := if Ascii.eqb c1 "x" then 53 else 39 in
  Ok (cmd, 0,
      Z.lor (Z.lor (Z.lor (Z.shiftl src 40) (Z.shiftl val_ 32))
                   (Z.shiftl cond 28)) error).

Definition heapctx (s : list string) : result word3 :=
  _ <- py_assert (len_is s 2) ;;
  c1 <- tok0 s 1 ;; _ <- py_assert (Ascii.eqb c1 "x") ;;
  w1 <- tok s 1 ;; r <- reg w1 ;;
  Ok (48, 0, Z.shiftl r 40).

Definition heapinc_modes : list (string * Z) :=
  [("vt_start", 0); ("vt_end", 1); ("frag_end", 3)].

Definition heapinc (s : list string) : result word3 :=
  _ <- py_assert (len_is s 2) ;;
  w1 <- tok s 1 ;; mode <- named_or_int heapinc_modes w1 ;;
  Ok (49, 0, Z.shiftl mode 32).

(** The two words of [movp] and the six of [regdump] *)
Definition movp (s : list string) : result (list Z) :=
  _ <- py_assert (len_is s 3) ;;
  c1 <- tok0 s 1 ;; _ <- py_assert (Ascii.eqb c1 "x") ;;
  w1 <- tok s 1 ;; addr <- reg w1 ;;
  w2 <- tok s 2 ;; value <- PyStr.int 0 (PyStr.strip_chars "#" w2) ;;
  Ok [Z.lor (Z.lor (Z.shiftl 2 56) (Z.shiftl addr 48)) (Z.land value 0xffffffff);
      Z.lor (Z.lor (Z.shiftl 2 56) (Z.shiftl (addr + 1) 48))
            (Z.land (Z.shiftr value 32) 0xffffffff)].

Definition regdump (s : list string) : result (list Z) :=
  _ <- py_assert (len_is s 2) ;;
  c1 <- tok0 s 1 ;; _ <- py_assert (Ascii.eqb c1 "x") ;;
  w1 <- tok s 1 ;; dest <- reg w1 ;;
  let regs := 16 in
  let cmd := 21 in
  let value := Z.lor (Z.shiftl dest 40) (Z.shiftl (Z.shiftl 1 regs - 1) 16) in
  Ok (List.map
        (fun i => Z.lor (Z.lor (Z.lor (Z.shiftl cmd 56) (Z.shiftl i 48)) value)
                        (Z.shiftl i 2))
        [0; 16; 32; 48; 64; 80]).

End Encode.

(** ** [Context.interpret] *)

Module Interp.
Import Operand.

(** The locals of [Context.interpret] that live across lines:
    [old_indent], and whether the nested function [is_num] is bound yet
    (its [def] stands in the loop body, below its first use). *)
Record Locals : Set := mkLocals {
  old_indent : option nat;
  is_num_bound : bool }.

Definition locals0 : Locals := mkLocals None false.

(** What a line does after its instruction is decoded: [Continue] is the
    statement [continue]; [Emit] reaches the end of the loop body with
    [cmd], [addr] and [value] set. *)
Inductive Step : Type :=
| Continue (c : Context.t)
| Emit (cmd addr value : Z) (c : Context.t).

Definition emit (w : Encode.word3) (c : Context.t) : Step :=
  let '(cmd, addr, value) := w in Emit cmd addr value c.

(** [self.l.buffer.append(code)] *)
Definition append_code (code : Z) (c : Context.t) : result Context.t :=
  lv <- Context.cur c ;;
  Ok (Context.set_cur (Level.append code lv) c).

(** *** Scopes: the head of the loop body *)
Definition enter_line (indent : nat) (loc : Locals) (c : Context.t)
  : result Context.t :=
  c <- match old_indent loc with
       | None => Ok (Context.push_level indent c)
       | Some old =>
           if negb (Nat.eqb indent old) then
             if Nat.ltb old indent then
               _ <- py_assert (Context.is_call c) ;;
               Ok (Context.push_level indent c)
             else Context.pop_until indent c
           else Ok c
       end ;;
  Ok (Context.with_is_call false (Context.set_l c)).

(** *** Label definitions *)

(** The line starts with a label, so far as the test can be made without
    calling [is_num]: [None] when [is_num] is called. *)
Definition label_test (s : list string) : result (option bool) :=
  s0 <- tok s 0 ;;
  if PyStr.endswith ":" s0 then Ok (Some true)
  else if len_is s 1 then Ok None
  else Ok (Some false).

Definition call_is_num (loc : Locals) (w : string) : result bool :=
  if is_num_bound loc then Ok (is_num w) else Raise UnboundLocalError.

Definition define_numeric (label : Z) (lv : Level.t) : result Level.t :=
  lv <- match Level.num_refs lv !! label with
        | Some refs =>
            lv' <- Level.process_relocs refs (Some (Level.offset lv)) lv ;;
            Ok (Level.with_num_refs (delete label (Level.num_refs lv')) lv')
        | None => Ok lv
        end ;;
  Ok (Level.with_num_labels (<[label := Level.offset lv]> (Level.num_labels lv)) lv).

Definition define_symbolic (label : string) (c : Context.t) : result Context.t :=
  lv <- Context.cur c ;;
  let c := match Level.labels lv !! label with
           | Some _ => Context.print PLabelReuse c
           | None => c
           end in
  Ok (Context.set_cur
        (Level.with_labels (<[label := Level.offset lv]> (Level.labels lv)) lv) c).

Definition define_label (loc : Locals) (s0 : string) (c : Context.t)
  : result Context.t :=
  let label := if PyStr.endswith ":" s0 then PyStr.drop_last s0 else s0 in
  numeric <- call_is_num loc label ;;
  if numeric then
    n <- PyStr.int 10 label ;;
    lv <- Context.cur c ;;
    lv' <- define_numeric n lv ;;
    Ok (Context.set_cur lv' c)
  else define_symbolic label c.

(** The label part of the loop body: the tokens left for the
    instruction, [None] for [continue]. *)
Definition labels_of_line (loc : Locals) (s : list string) (c : Context.t)
  : result (option (list string) * Context.t) :=
  t <- label_test s ;;
  is_label <- match t with
              | Some b => Ok b
              | None => s0 <- tok s 0 ;; call_is_num loc s0
              end ;;
  if is_label then
    s0 <- tok s 0 ;;
    c <- define_label loc s0 c ;;
    let s := PyList.from 1 s in
    if len_is s 0 then Ok (None, c) else Ok (Some s, c)
  else Ok (Some s, c).

(** *** [$] operands *)

(** The id of the buffer a [$name] names: [self.l] for [.] *)
Definition named_buffer_id (name : string) (c : Context.t) : result Z :=
  if String.eqb name "." then lv <- Context.cur c ;; Ok (Level.id lv)
  else a <- Dict.get name (Context.allocs c) ;; Ok (Alloc.id a).

(** One turn of the loop [for i in range(len(s))] *)
Definition dollar_step (i : nat) (s : list string) (c : Context.t)
  : result (list string * Context.t) :=
  si <- of_option IndexError (s !! i) ;;
  if PyStr.startswith "$" si then
    match PyStr.split "+" (PyStr.tail si) with
    | [] => Raise ValueError
    | name :: offset =>
        buf_id <- named_buffer_id name c ;;
        offset <- (if negb (len_is offset 0) then
                     _ <- py_assert (len_is offset 1) ;;
                     o <- tok offset 0 ;; PyStr.int 0 o
                   else Ok 0) ;;
        s0 <- tok s 0 ;;
        lv <- Context.cur c ;;
        let r := mkReloc (Level.id lv) (Level.offset lv) buf_id offset in
        let c := if String.eqb s0 "movp"
                 then Context.with_reloc_split (Context.reloc_split c ++ [r]) c
                 else Context.with_reloc (Context.reloc c ++ [r]) c in
        Ok (<[i := "#0x0"]> s, c)
    end
  else Ok (s, c).

Fixpoint dollar_loop (n i : nat) (s : list string) (c : Context.t)
  : result (list string * Context.t) :=
  match n with
  | O => Ok (s, c)
  | S n' =>
      '(s, c) <- dollar_step i s c ;;
      dollar_loop n' (S i) s c
  end.

Definition dollars (s : list string) (c : Context.t)
  : result (list string * Context.t) :=
  dollar_loop (List.length s) 0 s c.

(** *** Directives *)

Definition exe_append (e : ExeEntry) (c : Context.t) : Context.t :=
  Context.with_exe (Context.exe c ++ [e]) c.

Definition d_cs (s : list string) (c : Context.t) : result Context.t :=
  _ <- py_assert (len_is s 2) ;;
  c <- Context.flush_exe c ;;
  let c := Context.with_last_exe (Some (PyList.len (Context.exe c))) c in
  w1 <- tok s 1 ;; n <- PyStr.int 10 w1 ;;
  Ok (exe_append (mkExe true [AStr "exe"; AInt n]) c).

Definition d_parallel (s : list string) (c : Context.t) : result Context.t :=
  _ <- py_assert (len_is s 2) ;;
  c <- Context.flush_exe c ;;
  let c := Context.with_last_exe (Some (PyList.len (Context.exe c) - 1)) c in
  e <- PyList.last (Context.exe c) ;;
  w1 <- tok s 1 ;; n <- PyStr.int 10 w1 ;;
  e' <- exe_extend e [AInt n] ;;
  ex <- PyList.set (Context.exe c) (-1) e' ;;
  Ok (Context.with_exe ex c).

Definition d_alloc (s : list string) (c : Context.t) : result Context.t :=
  _ <- py_assert (len_is s 3 || len_is s 4) ;;
  alloc_id <- tok s 1 ;;
  w2 <- tok s 2 ;; size <- PyStr.int 10 w2 ;;
  flags <- (if len_is s 4 then w3 <- tok s 3 ;; val w3
            else Ok Alloc.default_flags) ;;
  let '(a, c) := Context.new_alloc size flags c in
  Ok (Context.with_allocs (Dict.set alloc_id a (Context.allocs c)) c).

Definition dump_modes : list (string * string) :=
  [("!dump", "hex"); ("!dump64", "hex64"); ("!fdump", "filehex");
   ("!delta", "delta"); ("!tiler", "tiler")].

Definition d_dump (s : list string) (c : Context.t) : result Context.t :=
  _ <- py_assert (len_is s 4) ;;
  alloc_id <- tok s 1 ;;
  w2 <- tok s 2 ;; offset <- val w2 ;;
  w3 <- tok s 3 ;; size <- val w3 ;;
  s0 <- tok s 0 ;;
  mode <- Dict.get s0 dump_modes ;;
  a <- Dict.get alloc_id (Context.allocs c) ;;
  Ok (exe_append
        (mkExe false [AStr "dump"; AId (Alloc.id a); AInt offset; AInt size;
                      AStr mode]) c).

Definition d_heatmap (s : list string) (c : Context.t) : result Context.t :=
  _ <- py_assert (len_is s 10) ;;
  w4 <- tok s 4 ;; _ <- py_assert (String.eqb w4 "gran") ;;
  w6 <- tok s 6 ;; _ <- py_assert (String.eqb w6 "len") ;;
  w8 <- tok s 8 ;; _ <- py_assert (String.eqb w8 "stride") ;;
  alloc_id <- tok s 1 ;;
  w2 <- tok s 2 ;; offset <- val w2 ;;
  w3 <- tok s 3 ;; size <- val w3 ;;
  w5 <- tok s 5 ;; granularity <- val w5 ;;
  w7 <- tok s 7 ;; length <- val w7 ;;
  w9 <- tok s 9 ;; stride <- val w9 ;;
  a <- Dict.get alloc_id (Context.allocs c) ;;
  Ok (exe_append
        (mkExe false [AStr "heatmap"; AId (Alloc.id a); AInt offset; AInt size;
                      AInt granularity; AInt length; AInt stride]) c).

Definition d_memset (s : list string) (c : Context.t) : result Context.t :=
  _ <- py_assert (len_is s 5) ;;
  alloc_id <- tok s 1 ;;
  w2 <- tok s 2 ;; offset <- val w2 ;;
  w3 <- tok s 3 ;; value <- val w3 ;;
  w4 <- tok s 4 ;; size <- val w4 ;;
  a <- Dict.get alloc_id (Context.allocs c) ;;
  Ok (exe_append
        (mkExe false [AStr "memset"; AId (Alloc.id a); AInt offset; AInt value;
                      AInt size]) c).

Definition d_raw (s : list string) (c : Context.t) : result Context.t :=
  Ok (exe_append (mkExe true (List.map AStr (PyList.from 1 s))) c).

(** [self.l.buffer.append] of each word *)
Fixpoint append_codes (ws : list Z) (c : Context.t) : result Context.t :=
  match ws with
  | [] => Ok c
  | w :: r => c <- append_code w c ;; append_codes r c
  end.

(** *** Branches *)

Definition branch_ops : list (string * Z) :=
  [("b.le", 0); ("b.gt", 1); ("b.eq", 2); ("b.ne", 3); ("b.lt", 4);
   ("b.ge", 5); ("b", 6); ("b.al", 6)].

(** The displacement of a branch to [label], as stored when the branch is
    emitted, and the Level with the reference recorded. *)
Definition branch_label (label : string) (lv : Level.t) : result (Z * Level.t) :=
  if is_num_suffixed "b" label then
    n <- PyStr.int 10 (PyStr.drop_last label) ;;
    _ <- py_assert (bool_decide (is_Some (Level.num_labels lv !! n))) ;;
    to <- of_option KeyError (Level.num_labels lv !! n) ;;
    Ok (resolve_rel to (Level.offset lv), lv)
  else if is_num_suffixed "f" label then
    n <- PyStr.int 10 (PyStr.drop_last label) ;;
    let refs := default [] (Level.num_refs lv !! n) in
    let r := mkRef (LNum n) (Level.offset lv) "rel" in
    Ok (0, Level.with_num_refs (<[n := (refs ++ [r])%list]> (Level.num_refs lv)) lv)
  else
    _ <- py_assert (negb (is_num label)) ;;
    let r := mkRef (LName label) (Level.offset lv) "rel" in
    Ok (0, Level.with_label_refs (Level.label_refs lv ++ [r]) lv).

Definition branch (s : list string) (c : Context.t) : result Step :=
  s0 <- tok s 0 ;;
  s <- (if String.eqb s0 "b" then
          if len_is s 2 then Ok ([s0; "w00"] ++ PyList.from 1 s)%list
          else if len_is s 3 then
            w1 <- tok s 1 ;;
            if str_in w1 ["back"; "skip"]
            then Ok ([s0; "w00"] ++ PyList.from 1 s)%list else Ok s
          else Ok s
        else Ok s) ;;
  ok <- (if len_is s 3 then Ok true
         else if len_is s 4 then
           w2 <- tok s 2 ;; Ok (str_in w2 ["back"; "skip"])
         else Ok false) ;;
  _ <- py_assert ok ;;
  c1 <- tok0 s 1 ;; _ <- py_assert (Ascii.eqb c1 "w") ;;
  w1 <- tok s 1 ;; src <- reg w1 ;;
  '(offset, c) <-
    (if len_is s 4 then
       w3 <- tok s 3 ;; offset <- val w3 ;;
       w2 <- tok s 2 ;;
       Ok (if String.eqb w2 "back" then -1 - offset else offset, c)
     else
       label <- tok s 2 ;;
       lv <- Context.cur c ;;
       '(offset, lv) <- branch_label label lv ;;
       Ok (offset, Context.set_cur lv c)) ;;
  op <- of_option KeyError (lookup s0 branch_ops) ;;
  o16 <- to_int16 offset ;;
  Ok (Emit 22 0 (Z.lor (Z.lor (Z.shiftl src 40) (Z.shiftl op 28)) o16) c).

(** *** Calls *)

(** One turn of [for ofs in range(cur - 2, cur)] *)
Definition call_scan (target num ofs : Z) (lv : Level.t) : result Level.t :=
  w <- PyList.get (Level.buffer lv) ofs ;;
  let lv := if Z.shiftr w 48 =? 0x100 + target
            then Level.with_call (Some ofs) (Level.call_len_offset lv) lv
            else lv in
  w <- PyList.get (Level.buffer lv) ofs ;;
  let lv := if Z.shiftr w 48 =? 0x200 + num
            then Level.with_call (Level.call_addr_offset lv) (Some ofs) lv
            else lv in
  Ok lv.

Definition no_paren (x : string) : bool :=
  negb (PyStr.contains "(" x) && negb (PyStr.contains ")" x).

Definition call (s : list string) (c : Context.t) : result Step :=
  let ss := List.filter no_paren s in
  _ <- py_assert (len_is ss 3) ;;
  c1 <- tok0 ss 1 ;; _ <- py_assert (Ascii.eqb c1 "w") ;;
  c2 <- tok0 ss 2 ;; _ <- py_assert (Ascii.eqb c2 "x") ;;
  s0 <- tok s 0 ;;
  cmd <- of_option KeyError (lookup s0 [("call", 32); ("tailcall", 33)]) ;;
  w1 <- tok ss 1 ;; num <- reg w1 ;;
  w2 <- tok ss 2 ;; target <- reg w2 ;;
  let value := Z.lor (Z.shiftl num 32) (Z.shiftl target 40) in
  lv <- Context.cur c ;;
  let cur := PyList.len (Level.buffer lv) in
  lv <- call_scan target num (cur - 2) lv ;;
  lv <- call_scan target num (cur - 1) lv ;;
  _ <- py_assert (bool_decide (is_Some (Level.call_addr_offset lv))) ;;
  _ <- py_assert (bool_decide (is_Some (Level.call_len_offset lv))) ;;
  Ok (Emit cmd 0 value (Context.with_is_call true (Context.set_cur lv c))).

(** *** The [if]/[elif] chain over [s[0]] *)

Definition continue_with (r : result Context.t) : result Step :=
  c <- r ;; Ok (Continue c).

Definition emit_with (r : result Encode.word3) (c : Context.t) : result Step :=
  w <- r ;; Ok (emit w c).

Definition dispatch (orig_line : string) (s : list string) (c : Context.t)
  : result Step :=
  s0 <- tok s 0 ;;
  if String.eqb s0 "!cs" then continue_with (d_cs s c)
  else if String.eqb s0 "!parallel" then continue_with (d_parallel s c)
  else if String.eqb s0 "!alloc" then continue_with (d_alloc s c)
  else if str_in s0 ["!dump"; "!dump64"; "!fdump"; "!delta"; "!tiler"]
    then continue_with (d_dump s c)
  else if String.eqb s0 "!heatmap" then continue_with (d_heatmap s c)
  else if String.eqb s0 "!memset" then continue_with (d_memset s c)
  else if String.eqb s0 "!raw" then continue_with (d_raw s c)
  else if String.eqb s0 "movp" then
    continue_with (ws <- Encode.movp s ;; append_codes ws c)
  else if String.eqb s0 "regdump" then
    continue_with (ws <- Encode.regdump s ;; append_codes ws c)
  else if String.eqb s0 "unk" then emit_with (Encode.unk s) c
  else if String.eqb s0 "nop" then emit_with (Encode.nop s) c
  else if String.eqb s0 "mov" then
    is_reg <- Encode.mov_is_reg s ;;
    if is_reg then emit_with (Encode.mov_reg s) c
    else emit_with (Encode.mov_imm s) c
  else if String.eqb s0 "add" then emit_with (Encode.add s) c
  else if String.eqb s0 "resources" then emit_with (Encode.resources s) c
  else if String.eqb s0 "fragment" then emit_with (Encode.fragment s) c
  else if String.eqb s0 "wait" then emit_with (Encode.wait s) c
  else if String.eqb s0 "slot" then emit_with (Encode.slot s) c
  else if String.eqb s0 "idvs" then emit_with (Encode.idvs s) c
  else if String.eqb s0 "flush_tiler" then emit_with (Encode.flush_tiler s) c
  else if String.eqb s0 "str" then
    timer <- Encode.str_is_timer s ;;
    if timer then emit_with (Encode.str_timer s) c
    else emit_with (Encode.ldr_str s) c
  else if String.eqb s0 "ldr" then emit_with (Encode.ldr_str s) c
  else if String.eqb s0 "b" || PyStr.startswith "b." s0 then branch s c
  else if str_in s0 ["evadd"; "evstr"] then emit_with (Encode.ev s) c
  else if bool_decide (head (PyStr.split "." s0) = Some "evwait")
    then emit_with (Encode.evwait s) c
  else if str_in s0 ["call"; "tailcall"] then call s c
  else if String.eqb s0 "heapctx" then emit_with (Encode.heapctx s) c
  else if String.eqb s0 "heapinc" then emit_with (Encode.heapinc s) c
  else Ok (Emit 0 0 0 (Context.print (PUnknownCommand orig_line) c)).

(** *** The end of the loop body *)

Definition make_code (cmd addr value : Z) : Z :=
  Z.lor (Z.lor (Z.shiftl cmd 56) (Z.shiftl addr 48)) value.

(** [given_code and code != given_code] *)
Definition mismatch (given_code : option Z) (code : Z) : bool :=
  match given_code with
  | None => false
  | Some g => negb (g =? 0) && negb (code =? g)
  end.

Definition finish_line (orig_line : string) (given_code : option Z)
    (cmd addr value : Z) (c : Context.t) : result Context.t :=
  let code := make_code cmd addr value in
  let c := if mismatch given_code code
           then Context.print
                  (PMismatch code (default 0 given_code) orig_line) c
           else c in
  append_code code c.

(** *** One line *)

(** [orig_line.split("@")[0].expandtabs().rstrip().lower()] *)
Definition clean (orig_line : string) : string :=
  PyStr.lower (PyStr.rstrip (PyStr.expandtabs
    (default "" (head (PyStr.split "@" orig_line))))).

(** The annotation of a line and the rest of the line *)
Definition split_given_code (line : string) : result (option Z * string) :=
  if has_given_code line then
    g <- PyStr.int 16 (PyStr.take 16 line) ;;
    Ok (Some g, PyStr.lstrip (PyStr.drop 16 line))
  else Ok (None, line).

Definition tokens (line : string) : list string :=
  List.map (PyStr.strip_chars ",") (PyStr.words line).

(** The indentation of a line and the line without it; [None] for a
    line that is empty once comments and blanks are removed. *)
Definition parse_line (orig_line : string) : option (nat * string) :=
  let line := clean orig_line in
  if String.eqb line "" then None
  else Some ((PyStr.len line - PyStr.len (PyStr.lstrip line))%nat,
             PyStr.lstrip line).

(** The loop body for a line that is not empty *)
Definition run_line (orig_line : string) (indent : nat) (line : string)
    (st : Locals * Context.t) : result (Locals * Context.t) :=
  let '(loc, c) := st in
  c <- enter_line indent loc c ;;
  let loc := mkLocals (Some indent) (is_num_bound loc) in
  '(given_code, line) <- split_given_code line ;;
  let s := tokens line in
  '(s, c) <- labels_of_line loc s c ;;
  match s with
  | None => Ok (loc, c)
  | Some s =>
      '(s, c) <- dollars s c ;;
      let loc := mkLocals (old_indent loc) true in
      step <- dispatch orig_line s c ;;
      match step with
      | Continue c => Ok (loc, c)
      | Emit cmd addr value c =>
          c <- finish_line orig_line given_code cmd addr value c ;;
          Ok (loc, c)
      end
  end.

Definition interpret_line (orig_line : string) (st : Locals * Context.t)
  : result (Locals * Context.t) :=
  match parse_line orig_line with
  | None => Ok st
  | Some (indent, line) => run_line orig_line indent line st
  end.

Fixpoint interpret_lines (lines : list string) (st : Locals * Context.t)
  : result (Locals * Context.t) :=
  match lines with
  | [] => Ok st
  | ln :: rest => st <- interpret_line ln st ;; interpret_lines rest st
  end.

(** The two statements after the loop *)
Definition end_of_text (c : Context.t) : result Context.t :=
  r0 <- PyList.get (Context.levels c) 0 ;;
  root <- Context.deref c r0 ;;
  c <- Context.pop_until (Level.indent root) c ;;
  Context.flush_exe c.

(** [Context.interpret(text)], after [text = text.split("\n")] *)
Definition interpret_program (lines : list string) (c : Context.t)
  : result Context.t :=
  '(_, c) <- interpret_lines lines (locals0, c) ;;
  end_of_text c.

Definition interpret_text (text : string) (c : Context.t) : result Context.t :=
  interpret_program (PyStr.split "010" text) c.

End Interp.

(** ** The module-level [interpret]

    [shaders], [memory] and [descriptors] are the module's tables, in the
    order of their keys; [Buffer_id] is the value of [Buffer.id] when the
    function is called.  The result is the final context; the string the
    function returns is its [Context.repr]. *)

Record Tables : Type := mkTables {
  parse_asm : string -> result Z;
  shaders : list (string * string);
  memory : list (string * MemSpec);
  descriptors : list (string * list DescWord) }.

Definition assemble (tb : Tables) (Buffer_id : Z) (text : string)
  : result Context.t :=
  let c := Context.init Buffer_id in
  c <- Context.add_shaders (parse_asm tb) (shaders tb) c ;;
  let c := Context.add_memory (memory tb) c in
  c <- Context.add_descriptors (descriptors tb) c ;;
  Interp.interpret_text text c.



Definition no_tables : Tables := mkTables (fun _ => Raise Unsupported) [] [] [].

(** Lines joined into a program text *)
Definition program (lines : list string) : string :=
  PyStr.join (String "010" "") lines.

(** ** Notions used by the statements *)

(** The number of 32-bit entries a descriptor table asks for: one for a
    literal, two for a reference to a buffer. *)
Definition entry_count (w : DescWord) : Z :=
  match w with
  | DInt _ => 1
  | DName _ | DRef _ _ => 2
  end.

Fixpoint entries (words : list DescWord) : Z :=
  match words with
  | [] => 0
  | w :: rest => entry_count w + entries rest
  end.


(** A relocation whose source offset is a multiple of [k] bytes *)
Definition aligned (k : Z) (r : Reloc) : Prop := r_offset r mod k = 0.

(** [c'] has the relocations of [c] and, after them, relocations at
    multiples of 8 bytes only. *)
Definition reloc_ext (c c' : Context.t) : Prop :=
  exists new new_split : list Reloc,
    Context.reloc c' = (Context.reloc c ++ new)%list
    /\ Context.reloc_split c' = (Context.reloc_split c ++ new_split)%list
    /\ Forall (aligned 8) new
    /\ Forall (aligned 8) new_split.

(** *** Renumbering the buffers: every buffer id moved by [k] *)









(** ** Sample inputs *)

Definition one_region : Tables :=
  mkTables (fun _ => Raise Unsupported) [] [("bufa", MSize 4096)] [].



(** A symbolic forward branch, in a nested scope and at the top *)
Definition nested_branch (label : string) : string := program [
  "mov x48, #0";
  "mov w4a, #0";
  "call w4a, x48";
  "  b " ++ label;
  "  nop";
  "  end: nop";
  "wait 0"].

Definition top_branch (label : string) : string := program [
  "b " ++ label;
  "nop";
  "end: nop";
  "wait 0"].

(** A second call that no tagged word precedes *)
Definition second_call : string := program [
  "mov x48, #0";
  "mov w4a, #0";
  "call w4a, x48";
  "nop";
  "nop";
  "call w4a, x48"].

Definition untagged_call : string := program [
  "mov x10, #0";
  "nop";
  "nop";
  "call w4a, x48"].

(** A forward branch over [n] words: the label is [n + 1] words after
    the branch, the distance is [n]. *)
Definition far_branch_lines (n : nat) : list string :=
  ("b.ne w10, 1f" :: List.repeat "nop" n ++ ["1:"])%list.

Definition far_branch (n : nat) : string := program (far_branch_lines n).

(** [b.ne w10] with a displacement of zero *)
Definition branch_word : Z := 0x1600100030000000.

(** A context whose only Level is [lv], open at the top *)
Definition one_level (Buffer_id : Z) (lv : Level.t) : Context.t :=
  Context.mk [lv] [0%nat] (Some 0%nat) [] [] [] [] [] None false Buffer_id [].

(** The Level of [far_branch] while its words are read: the branch at
    offset 0 waits for label 1. *)
Definition filling (buffer : list Z) : Level.t :=
  Level.mk 0 0 buffer None None ∅ [] ∅ {[1 := [mkRef (LNum 1) 0 "rel"]]}.

(** The words of every completed Level, in the order of [self.completed] *)
Definition completed_words (c : Context.t) : list (Z * list Z) :=
  List.map (fun lv => (Level.id lv, Level.buffer lv)) (Context.completed_levels c).

(** The fields of a Level that resolving branches leaves alone *)
Definition same_tables (lv lv' : Level.t) : Prop :=
  Level.id lv' = Level.id lv
  /\ Level.indent lv' = Level.indent lv
  /\ Level.call_addr_offset lv' = Level.call_addr_offset lv
  /\ Level.call_len_offset lv' = Level.call_len_offset lv
  /\ Level.labels lv' = Level.labels lv
  /\ Level.label_refs lv' = Level.label_refs lv
  /\ Level.num_labels lv' = Level.num_labels lv
  /\ Level.num_refs lv' = Level.num_refs lv
  /\ List.length (Level.buffer lv') = List.length (Level.buffer lv).








(** ** Notions used by the further properties *)

(** The 32-bit entries a reader finds in the 64-bit words of a buffer,
    low half first *)
Definition unpack_pairs (buffer : list Z) : list Z :=
  List.flat_map (fun w => [Z.land w 0xffffffff; Z.shiftr w 32]) buffer.

(** The entries the words of a descriptor table stand for: a literal is
    one entry, a reference two zero entries that its relocation fills *)
Definition entry_values (words : list DescWord) : list Z :=
  List.flat_map (fun w => match w with DInt n => [n] | _ => [0; 0] end) words.


(** A Level of four words with two branches that wait for the label
    [end], bound to offset 24 *)
Definition two_branches : Level.t :=
  Level.mk 0 0 [branch_word; 0; branch_word; 0] None None {[ "end" := 24 ]}
    [mkRef (LName "end") 0 "rel"; mkRef (LName "end") 16 "rel"] ∅ ∅.

(** *** The ids of buffers *)

Definition alloc_ids (c : Context.t) : list Z :=
  (fun kv => Alloc.id (snd kv)) <$> Context.allocs c.

Definition level_ids (c : Context.t) : list Z :=
  Level.id <$> Context.arena c.

(** The ids of all buffers of a context: every Level created, then the
    Allocs of [self.allocs] *)
Definition buffer_ids (c : Context.t) : list Z := level_ids c ++ alloc_ids c.


(** A relocation between buffers with ids from [first] up to [last] *)
Definition reloc_in_range (first last : Z) (r : Reloc) : Prop :=
  first <= r_dst r < last /\ first <= r_src r < last.

(** The buffers of [c] have distinct ids from [first] up to [Buffer.id],
    no Level is twice on the stack or among the completed ones, and the
    relocations name ids in that range. *)
Definition ids_fresh (first : Z) (c : Context.t) : Prop :=
  NoDup (buffer_ids c)
  /\ Forall (fun i => first <= i < Context.Buffer_id c) (buffer_ids c)
  /\ NoDup (Context.levels c ++ Context.completed c)
  /\ Forall (fun r => (r < List.length (Context.arena c))%nat)
       (Context.levels c ++ Context.completed c)
  /\ first <= Context.Buffer_id c
  /\ Forall (reloc_in_range first (Context.Buffer_id c))
       (Context.reloc c ++ Context.reloc_split c).

(** [c'] has the buffers and the relocations of [c]; Levels may have
    moved from the stack to the completed ones. *)
Definition same_buffers (c c' : Context.t) : Prop :=
  level_ids c' = level_ids c
  /\ alloc_ids c' = alloc_ids c
  /\ Context.Buffer_id c' = Context.Buffer_id c
  /\ Context.levels c' ++ Context.completed c'
     ≡ₚ Context.levels c ++ Context.completed c
  /\ Context.reloc c' = Context.reloc c
  /\ Context.reloc_split c' = Context.reloc_split c.

Definition keeps_ids (c c' : Context.t) : Prop :=
  forall first, ids_fresh first c -> ids_fresh first c'.


(** *** The scope stack *)

Definition indents (c : Context.t) : list nat :=
  Level.indent <$> Context.arena c.

(** The indentation of the Level behind a reference *)
Definition indent_of (c : Context.t) (r : nat) : nat :=
  default 0%nat (indents c !! r).

(** Every element is below the elements before it *)
Fixpoint decreasing (l : list nat) : Prop :=
  match l with
  | [] => True
  | x :: r => Forall (fun y => (y < x)%nat) r /\ decreasing r
  end.

(** [self.l] is the top of the stack, if there is one; indentations
    grow from the bottom of the stack to its top; every Level created is
    on the stack or among the completed ones, and only once. *)
Definition stack_ok (c : Context.t) : Prop :=
  match List.rev (Context.levels c) with
  | [] => True
  | top :: _ => Context.l c = Some top
  end
  /\ decreasing (indent_of c <$> List.rev (Context.levels c))
  /\ Context.levels c ++ Context.completed c
     ≡ₚ seq 0 (List.length (Context.arena c)).

(** The top of the stack is indented by [o] at most *)
Definition top_le (o : nat) (c : Context.t) : Prop :=
  match List.rev (Context.levels c) with
  | [] => True
  | top :: _ => (indent_of c top <= o)%nat
  end.

Definition same_stack (c c' : Context.t) : Prop :=
  Context.levels c' = Context.levels c
  /\ Context.l c' = Context.l c
  /\ indents c' = indents c
  /\ Context.completed c' = Context.completed c.

Definition keeps_stack (c c' : Context.t) : Prop :=
  stack_ok c -> stack_ok c' /\ forall o, top_le o c -> top_le o c'.





(** * Properties *)

Local Open Scope list_scope.

(** ** The error monad *)

Lemma rbind_ok {A B} (m : result A) (f : A -> result B) (b : B) :
  rbind m f = Ok b -> exists a, m = Ok a /\ f a = Ok b.
Proof. destruct m as [a|e]; simpl; [eauto | discriminate]. Qed.

Lemma rbind_raise {A B} (m : result A) (f : A -> result B) (e : exn) :
  m = Raise e -> rbind m f = Raise e.
Proof. intros ->. reflexivity. Qed.

Lemma py_assert_ok (b : bool) (u : unit) : py_assert b = Ok u -> b = true.
Proof. destruct b; [reflexivity | discriminate]. Qed.

(** Take a successful run apart, statement by statement. *)
Ltac ok_inv H :=
  repeat
    match type of H with
    | rbind _ _ = Ok _ =>
        let a := fresh "a" in
        let Ha := fresh "Ha" in
        apply rbind_ok in H; destruct H as (a & Ha & H)
    | (let '(_, _) := ?x in _) = Ok _ => destruct x
    | Ok _ = Ok _ => injection H as H; try subst
    | Raise _ = Ok _ => discriminate H
    end.

(** ** Python lists *)

Lemma len_app {A} (l1 l2 : list A) :
  PyList.len (l1 ++ l2) = PyList.len l1 + PyList.len l2.
Proof. unfold PyList.len. rewrite length_app. lia. Qed.

Lemma len_nonneg {A} (l : list A) : 0 <= PyList.len l.
Proof. unfold PyList.len. lia. Qed.

(** ** C10: packing a descriptor table *)

Lemma pack_pairs_length (buf : list Z) :
  PyList.len (Context.pack_pairs buf) = PyList.len buf / 2.
Proof.
  unfold PyList.len.
  induction buf as [buf IH] using (induction_ltof1 _ (@List.length Z)).
  unfold ltof in IH.
  destruct buf as [|x [|y rest]]; try reflexivity.
  cbn [Context.pack_pairs List.length].
  rewrite !Nat2Z.inj_succ, IH by (simpl; lia).
  replace (Z.succ (Z.succ (Z.of_nat (List.length rest))))
    with (Z.of_nat (List.length rest) + 1 * 2) by lia.
  rewrite Z.div_add by lia. lia.
Qed.

(** An odd entry at the end takes no part in the packing. *)
Lemma pack_pairs_odd (buf : list Z) (x : Z) :
  Z.even (PyList.len buf) = true ->
  Context.pack_pairs (buf ++ [x]) = Context.pack_pairs buf.
Proof.
  unfold PyList.len.
  induction buf as [buf IH] using (induction_ltof1 _ (@List.length Z)).
  unfold ltof in IH. intros Hev.
  destruct buf as [|a [|b rest]]; try reflexivity.
  - discriminate Hev.
  - cbn [Context.pack_pairs app]. f_equal. apply IH; [simpl; lia|].
    cbn [List.length] in Hev. rewrite !Nat2Z.inj_succ in Hev.
    rewrite Z.even_succ_succ in Hev. exact Hev.
Qed.

Lemma desc_words_entries a_id words :
  forall buf c buf' c',
    Context.desc_words a_id words buf c = Ok (buf', c') ->
    PyList.len buf' = PyList.len buf + entries words
    /\ Context.out c' = Context.out c
    /\ exists more, buf' = buf ++ more.
Proof.
  induction words as [|w rest IH]; intros buf c buf' c' H.
  - injection H as <- <-. cbn. split; [lia|]. split; [reflexivity|].
    exists []. now rewrite app_nil_r.
  - cbn [Context.desc_words] in H.
    assert (Hstep : forall c1 pad,
               Context.desc_words a_id rest (buf ++ pad) c1 = Ok (buf', c') ->
               Context.out c1 = Context.out c ->
               PyList.len pad = entry_count w ->
               PyList.len buf' = PyList.len buf + entries (w :: rest)
               /\ Context.out c' = Context.out c
               /\ exists more, buf' = buf ++ more).
    { intros c1 pad H1 Ho1 Hpad.
      apply IH in H1 as (Hl & Ho & more & ->).
      rewrite Hl, len_app, Hpad. cbn [entries].
      split; [lia|]. split; [congruence|].
      exists (pad ++ more). now rewrite app_assoc. }
    destruct w as [n|alloc|alloc o].
    + eapply Hstep; [exact H|reflexivity|reflexivity].
    + ok_inv H. eapply Hstep; [exact H|reflexivity|reflexivity].
    + ok_inv H. eapply Hstep; [exact H|reflexivity|reflexivity].
Qed.

Lemma dict_get_set {V} (k : string) (v : V) (d : list (string * V)) :
  Dict.get k (Dict.set k v d) = Ok v.
Proof.
  induction d as [|[k' v'] r IH]; cbn.
  - now rewrite String.eqb_refl.
  - destruct (String.eqb k k') eqn:E; cbn; rewrite ?String.eqb_refl, ?E; auto.
Qed.

(** C10.  A descriptor table whose words ask for an odd number of 32-bit
    entries is accepted without any report; the 64-bit words of its Alloc
    are packed from all entries but the last, and the Alloc's size is
    [floor(entries / 2) * 8] bytes. *)
Theorem odd_descriptor_entry_dropped
    (d : string) (words : list DescWord) (c c' : Context.t) :
  Context.add_descriptors [(d, words)] c = Ok c' ->
  Z.odd (entries words) = true ->
  exists (buf : list Z) (last : Z) (a : Alloc.t),
    PyList.len (buf ++ [last]) = entries words
    /\ rmap fst (Context.desc_words (Context.Buffer_id c) words []
                   (snd (Context.new_alloc 0 Alloc.default_flags c)))
       = Ok (buf ++ [last])
    /\ Dict.get d (Context.allocs c') = Ok a
    /\ Alloc.buffer a = Context.pack_pairs buf
    /\ PyList.len (Alloc.buffer a) = entries words / 2
    /\ Alloc.size a = entries words / 2 * 8
    /\ Context.out c' = Context.out c.
Proof.
  intros H Hodd. cbn [Context.add_descriptors Context.new_alloc] in H.
  ok_inv H. rename l into full.
  cbn [Context.new_alloc snd Alloc.new Alloc.id].
  pose proof (desc_words_entries _ _ _ _ _ _ Ha) as (Hl & Ho & _).
  destruct (List.rev full) as [|last rbuf] eqn:Erev.
  - apply (f_equal (@List.rev Z)) in Erev. rewrite rev_involutive in Erev.
    subst full. change (0 = 0 + entries words) in Hl.
    rewrite Z.add_0_l in Hl. rewrite <- Hl in Hodd. discriminate Hodd.
  - apply (f_equal (@List.rev Z)) in Erev. rewrite rev_involutive in Erev.
    cbn [List.rev] in Erev. subst full.
    set (buf := List.rev rbuf) in *.
    assert (Hl' : PyList.len buf + 1 = entries words).
    { rewrite len_app in Hl. exact Hl. }
    assert (Hev : Z.even (PyList.len buf) = true).
    { replace (PyList.len buf) with (entries words - 1) by lia.
      rewrite Z.even_sub, <- Z.negb_odd, Hodd. reflexivity. }
    assert (Hhalf : PyList.len (Context.pack_pairs buf) = entries words / 2).
    { rewrite pack_pairs_length, <- Hl'.
      destruct (Z.even_spec (PyList.len buf)) as [[k Hk] _]; [exact Hev|].
      rewrite Hk. replace (2 * k + 1) with (1 + k * 2) by lia.
      rewrite Z.div_add by lia. rewrite Z.mul_comm, Z.div_mul by lia.
      reflexivity. }
    exists buf, last.
    eexists. split; [rewrite len_app; exact Hl'|].
    split; [cbn [Alloc.id Alloc.new] in Ha; rewrite Ha; reflexivity|].
    split; [cbn; apply dict_get_set|].
    cbn [Alloc.buffer Alloc.size].
    rewrite pack_pairs_odd by exact Hev.
    split; [reflexivity|].
    split; [exact Hhalf|]. split; [now rewrite Hhalf|].
    cbn. exact Ho.
Qed.

(** ** Runs of the sample inputs *)


(** C3: the Level of a nested scope is completed with its symbolic branch
    unresolved (the displacement field of its first word is 0, where the
    same lines at the top get 1), and a branch to a label that is never
    defined is fatal at the top only. *)
Lemma nested_level_not_finalized :
  rmap completed_words (assemble no_tables 0 (nested_branch "end"))
  = Ok [(1, [0x1600000060000000; 0; 0]);
        (0, [0x0148000000000000; 0x024a000000000018; 0x2000484a00000000;
             0x0300000000010000])]
  /\ rmap completed_words (assemble no_tables 0 (top_branch "end"))
     = Ok [(0, [0x1600000060000001; 0; 0; 0x0300000000010000])]
  /\ is_ok (assemble no_tables 0 (nested_branch "nowhere")) = true
  /\ assemble no_tables 0 (top_branch "nowhere") = Raise KeyError.
Proof. repeat split; vm_compute; reflexivity. Qed.



(** C6: a call that no tagged word precedes is accepted when an earlier
    call of the Level has left its bookkeeping behind; without an earlier
    call it is fatal. *)
Lemma stale_call_bookkeeping :
  rmap completed_words (assemble no_tables 0 second_call)
  = Ok [(0, [0x0148000000000000; 0x024a000000000000; 0x2000484a00000000;
             0; 0; 0x2000484a00000000])]
  /\ assemble no_tables 0 untagged_call = Raise AssertionError.
Proof. split; vm_compute; reflexivity. Qed.



(** ** The current Level *)

Lemma cur_set_cur (c : Context.t) (lv lv' : Level.t) :
  Context.cur c = Ok lv -> Context.cur (Context.set_cur lv' c) = Ok lv'.
Proof.
  unfold Context.cur, Context.set_cur, Context.deref.
  destruct (Context.l c) as [r|] eqn:El; [|discriminate].
  cbn. rewrite El. intros H.
  destruct (Context.arena c !! r) eqn:Er; [|discriminate].
  rewrite list_lookup_insert_eq; [reflexivity|].
  eapply lookup_lt_Some, Er.
Qed.




(** ** C9: the annotation of a line *)


(** ** C5: what is fatal and what is not *)

Lemma interpret_lines_app (l1 l2 : list string) :
  forall st,
    Interp.interpret_lines (l1 ++ l2) st
    = rbind (Interp.interpret_lines l1 st) (Interp.interpret_lines l2).
Proof.
  induction l1 as [|ln r IH]; intros st; cbn; [reflexivity|].
  destruct (Interp.interpret_line ln st); cbn; [apply IH | reflexivity].
Qed.



(** ** C4: closing a nested scope *)








(** ** Resolving pending branches *)

Lemma to_int16_ok (d v : Z) :
  to_int16 d = Ok v -> -32768 <= d < 36768 /\ v = Z.land d 0xffff.
Proof.
  unfold to_int16. intros H. ok_inv H.
  apply py_assert_ok in Ha, Ha0. lia.
Qed.

Lemma to_int16_in_range (d : Z) :
  -32768 <= d < 36768 -> to_int16 d = Ok (Z.land d 0xffff).
Proof.
  intros Hd. unfold to_int16.
  replace (d <? 36768) with true by (symmetry; apply Z.ltb_lt; lia).
  replace (d >=? -32768) with true by (symmetry; apply Z.geb_le; lia).
  reflexivity.
Qed.

Lemma pylist_index_lt {A} (l : list A) (i : Z) (n : nat) :
  PyList.index l i = Ok n -> (n < List.length l)%nat.
Proof.
  unfold PyList.index, PyList.len.
  destruct ((0 <=? i) && (i <? Z.of_nat (List.length l))) eqn:E1.
  - intros [= <-]. apply andb_prop in E1 as [? ?]. lia.
  - destruct ((- Z.of_nat (List.length l) <=? i) && (i <? 0)) eqn:E2;
      [|discriminate].
    intros [= <-]. apply andb_prop in E2 as [? ?]. lia.
Qed.

Lemma pylist_index_nonneg {A} (l : list A) (i : Z) (n : nat) :
  0 <= i -> PyList.index l i = Ok n -> n = Z.to_nat i.
Proof.
  intros Hi. unfold PyList.index.
  destruct ((0 <=? i) && (i <? PyList.len l)); [now intros [= <-]|].
  replace (i <? 0) with false by (symmetry; apply Z.ltb_ge; lia).
  rewrite andb_false_r. discriminate.
Qed.

Lemma buffer_add_value_inv (ofs v : Z) (lv lv' : Level.t) :
  Level.buffer_add_value ofs v lv = Ok lv' ->
  exists (n : nat) (w : Z),
    PyList.index (Level.buffer lv) (ofs / 8) = Ok n
    /\ Level.buffer lv !! n = Some w
    /\ lv' = Level.with_buffer (<[n := w + v]> (Level.buffer lv)) lv.
Proof.
  unfold Level.buffer_add_value, PyList.get, PyList.set.
  destruct (PyList.index (Level.buffer lv) (ofs / 8)) as [n|] eqn:En;
    cbn; [|discriminate].
  destruct (Level.buffer lv !! n) as [w|] eqn:Ew; cbn; [|discriminate].
  intros [= <-]. eauto.
Qed.

Lemma same_tables_refl (lv : Level.t) : same_tables lv lv.
Proof. repeat split. Qed.

Lemma same_tables_trans (a b c : Level.t) :
  same_tables a b -> same_tables b c -> same_tables a c.
Proof.
  unfold same_tables. intros (?&?&?&?&?&?&?&?&?) (?&?&?&?&?&?&?&?&?).
  repeat split; congruence.
Qed.

Lemma same_tables_offset (lv lv' : Level.t) :
  same_tables lv lv' -> Level.offset lv' = Level.offset lv.
Proof.
  intros (_&_&_&_&_&_&_&_&H). unfold Level.offset, PyList.len. now rewrite H.
Qed.

Lemma buffer_add_value_same (ofs v : Z) (lv lv' : Level.t) :
  Level.buffer_add_value ofs v lv = Ok lv' -> same_tables lv lv'.
Proof.
  intros H. apply buffer_add_value_inv in H as (n & w & _ & _ & ->).
  repeat split. cbn. apply length_insert.
Qed.

Lemma process_relocs_cons (r : Ref) (rest : list Ref) (to : option Z)
    (lv lv' : Level.t) :
  Level.process_relocs (r :: rest) to lv = Ok lv' ->
  exists v lv1,
    Level.buffer_add_value (ref_offset r) v lv = Ok lv1
    /\ Level.process_relocs rest to lv1 = Ok lv'.
Proof.
  cbn [Level.process_relocs]. intros H.
  apply rbind_ok in H as (_ & _ & H).
  apply rbind_ok in H as (goto & _ & H).
  apply rbind_ok in H as (v & _ & H).
  apply rbind_ok in H as (lv1 & Hadd & H). eauto.
Qed.


Lemma process_relocs_same (refs : list Ref) (to : option Z) :
  forall lv lv', Level.process_relocs refs to lv = Ok lv' -> same_tables lv lv'.
Proof.
  induction refs as [|r rest IH]; intros lv lv' H; cbn in H.
  - injection H as <-. apply same_tables_refl.
  - apply process_relocs_cons in H as (v & lv1 & Hadd & H).
    eapply same_tables_trans; [|eapply IH, H].
    eapply buffer_add_value_same, Hadd.
Qed.


(** ** C7: numeric labels *)


Lemma define_numeric_inv (n : Z) (lv lv' : Level.t) :
  Interp.define_numeric n lv = Ok lv' ->
  exists lv1,
    Level.process_relocs (default [] (Level.num_refs lv !! n))
      (Some (Level.offset lv)) lv = Ok lv1
    /\ lv' = Level.with_num_labels
               (<[n := Level.offset lv]> (Level.num_labels lv))
               (Level.with_num_refs (delete n (Level.num_refs lv)) lv1).
Proof.
  unfold Interp.define_numeric. intros H.
  destruct (Level.num_refs lv !! n) as [refs|] eqn:E; cbn [default].
  - apply rbind_ok in H as (lv2 & H2 & H).
    apply rbind_ok in H2 as (lv1 & H1 & H2).
    injection H2 as <-. injection H as <-.
    exists lv1. split; [exact H1|].
    pose proof (process_relocs_same _ _ _ _ H1) as Hs.
    pose proof (same_tables_offset _ _ Hs) as Ho.
    destruct Hs as (_&_&_&_&_&_&Hnl&Hnr&_).
    unfold Level.with_num_labels, Level.with_num_refs, Level.offset in *.
    cbn. now rewrite Ho, Hnl, Hnr.
  - cbn in H. injection H as <-. exists lv. split; [reflexivity|].
    rewrite delete_id by exact E. now destruct lv.
Qed.


(** ** C8: the source offsets of relocations *)

Lemma reloc_ext_refl (c : Context.t) : reloc_ext c c.
Proof. exists [], []. rewrite !app_nil_r. auto. Qed.

Lemma reloc_ext_trans (a b c : Context.t) :
  reloc_ext a b -> reloc_ext b c -> reloc_ext a c.
Proof.
  intros (n1 & s1 & E1 & F1 & A1 & B1) (n2 & s2 & E2 & F2 & A2 & B2).
  exists (n1 ++ n2), (s1 ++ s2).
  rewrite E2, F2, E1, F1, <- !app_assoc.
  repeat split; try reflexivity; apply Forall_app; auto.
Qed.

Lemma reloc_ext_same (c c' : Context.t) :
  Context.reloc c' = Context.reloc c ->
  Context.reloc_split c' = Context.reloc_split c ->
  reloc_ext c c'.
Proof.
  intros E F. exists [], []. rewrite E, F, !app_nil_r. auto.
Qed.

Lemma reloc_set_cur lv c :
  Context.reloc (Context.set_cur lv c) = Context.reloc c
  /\ Context.reloc_split (Context.set_cur lv c) = Context.reloc_split c.
Proof. unfold Context.set_cur. now destruct (Context.l c). Qed.

Lemma reloc_set_l c :
  Context.reloc (Context.set_l c) = Context.reloc c
  /\ Context.reloc_split (Context.set_l c) = Context.reloc_split c.
Proof. unfold Context.set_l. now destruct (List.rev (Context.levels c)). Qed.

Lemma set_cur_ext lv c : reloc_ext c (Context.set_cur lv c).
Proof. apply reloc_ext_same; apply reloc_set_cur. Qed.

Lemma set_l_ext c : reloc_ext c (Context.set_l c).
Proof. apply reloc_ext_same; apply reloc_set_l. Qed.

(** The hook of [inv_ok]: what is known of a finished call *)
Ltac fwd H := idtac.

(** Take a successful run apart, following its branches. *)
Ltac inv_ok H :=
  lazymatch type of H with
  | rbind _ _ = Ok _ =>
      let a := fresh "a" in
      let Ha := fresh "Ha" in
      apply rbind_ok in H; destruct H as (a & Ha & H);
      inv_ok Ha; inv_ok H
  | Ok _ = Ok _ => injection H as H; try subst
  | Raise _ = Ok _ => discriminate H
  | match ?x with _ => _ end = Ok _ => destruct x eqn:?; inv_ok H
  | _ => fwd H
  end.

(** Close a goal [reloc_ext c c'] from the facts [inv_ok] has left. *)
Ltac ext_chain :=
  repeat (eapply reloc_ext_trans; [eassumption|]);
  first [ apply reloc_ext_refl
        | eassumption
        | apply set_cur_ext
        | apply set_l_ext
        | apply reloc_ext_same; reflexivity ].

Lemma patch_call_site_ext child c c' :
  Context.patch_call_site child c = Ok c' -> reloc_ext c c'.
Proof.
  unfold Context.patch_call_site. intros H. inv_ok H.
  eapply reloc_ext_trans; [|apply set_cur_ext].
  eexists [_], []. cbn. rewrite app_nil_r.
  repeat split; auto. constructor; [|constructor].
  unfold aligned. cbn. apply Z.mod_mul. lia.
Qed.

Ltac fwd H ::=
  first [ apply patch_call_site_ext in H | idtac ].

Lemma pop_loop_ext stack :
  forall ind c c', Context.pop_loop stack ind c = Ok c' -> reloc_ext c c'.
Proof.
  induction stack as [|popped rest IH]; intros ind c c' H;
    cbn [Context.pop_loop] in H; inv_ok H; try ext_chain.
  - apply IH in H.
    eapply reloc_ext_trans; [|eapply reloc_ext_trans; [exact Ha1|exact H]].
    eapply reloc_ext_trans; [|apply set_l_ext]. now apply reloc_ext_same.
Qed.

Lemma pop_until_ext ind c c' :
  Context.pop_until ind c = Ok c' -> reloc_ext c c'.
Proof. apply pop_loop_ext. Qed.

Ltac fwd H ::=
  first [ apply patch_call_site_ext in H
        | apply pop_until_ext in H
        | idtac ].

Lemma push_level_ext ind c : reloc_ext c (Context.push_level ind c).
Proof. now apply reloc_ext_same. Qed.

Lemma flush_exe_ext c c' : Context.flush_exe c = Ok c' -> reloc_ext c c'.
Proof.
  unfold Context.flush_exe, Context.close_root, Context.attach_exe.
  intros H. inv_ok H;
    repeat (eapply reloc_ext_trans; [eassumption|]);
    try (apply reloc_ext_same; reflexivity);
    try (eapply reloc_ext_trans; [|apply set_l_ext];
         apply reloc_ext_same; reflexivity).
Qed.

Lemma enter_line_ext indent loc c c' :
  Interp.enter_line indent loc c = Ok c' -> reloc_ext c c'.
Proof.
  unfold Interp.enter_line. intros H. inv_ok H;
    (eapply reloc_ext_trans; [|apply reloc_ext_same; reflexivity]);
    (eapply reloc_ext_trans; [|apply set_l_ext]);
    first [ eassumption | apply push_level_ext | apply reloc_ext_refl ].
Qed.

Lemma labels_of_line_ext loc s c s' c' :
  Interp.labels_of_line loc s c = Ok (s', c') -> reloc_ext c c'.
Proof.
  unfold Interp.labels_of_line, Interp.define_label, Interp.define_symbolic.
  intros H. inv_ok H; try ext_chain;
    (eapply reloc_ext_trans; [|apply set_cur_ext]);
    repeat case_match; apply reloc_ext_same; reflexivity.
Qed.

Lemma offset_aligned lv : Level.offset lv mod 8 = 0.
Proof. unfold Level.offset. apply Z.mod_mul. lia. Qed.

Lemma dollar_step_ext i s c s' c' :
  Interp.dollar_step i s c = Ok (s', c') -> reloc_ext c c'.
Proof.
  unfold Interp.dollar_step. intros H. inv_ok H; try ext_chain;
    (case_match; [eexists [], [_] | eexists [_], []]);
    cbn; rewrite app_nil_r; repeat split; auto;
    (constructor; [apply offset_aligned|constructor]).
Qed.

Lemma dollar_loop_ext n :
  forall i s c s' c',
    Interp.dollar_loop n i s c = Ok (s', c') -> reloc_ext c c'.
Proof.
  induction n as [|n IH]; intros i s c s' c' H; cbn [Interp.dollar_loop] in H.
  - injection H as <- <-. apply reloc_ext_refl.
  - apply rbind_ok in H as ([s1 c1] & H1 & H).
    apply dollar_step_ext in H1. apply IH in H.
    eapply reloc_ext_trans; eassumption.
Qed.

Lemma append_code_ext code c c' :
  Interp.append_code code c = Ok c' -> reloc_ext c c'.
Proof. unfold Interp.append_code. intros H. inv_ok H. apply set_cur_ext. Qed.

Lemma append_codes_ext ws :
  forall c c', Interp.append_codes ws c = Ok c' -> reloc_ext c c'.
Proof.
  induction ws as [|w r IH]; intros c c' H; cbn in H.
  - injection H as <-. apply reloc_ext_refl.
  - apply rbind_ok in H as (c1 & H1 & H).
    apply append_code_ext in H1. apply IH in H.
    eapply reloc_ext_trans; eassumption.
Qed.

Ltac fwd H ::=
  first [ apply patch_call_site_ext in H
        | apply pop_until_ext in H
        | apply flush_exe_ext in H
        | apply enter_line_ext in H
        | apply labels_of_line_ext in H
        | apply dollar_loop_ext in H
        | apply append_codes_ext in H
        | apply append_code_ext in H
        | idtac ].
















(** ** C2: assembling twice *)

(** *** The error monad, again *)


Lemma rmap_rbind {A B C} (f : B -> C) (m : result A) (g : A -> result B) :
  rmap f (rbind m g) = rbind m (fun a => rmap f (g a)).
Proof. now destruct m. Qed.

Lemma rbind_ext {A B} (m : result A) (f g : A -> result B) :
  (forall a, f a = g a) -> rbind m f = rbind m g.
Proof. intros E. destruct m; cbn; auto. Qed.

(** *** Lists under a map *)





(** *** Levels *)







(** *** The context *)



















(** *** The registry passes *)





(** *** The interpreter *)































(** ** Program texts and their lines *)

Lemma chars_app (s1 s2 : string) :
  PyStr.chars (s1 ++ s2)%string = PyStr.chars s1 ++ PyStr.chars s2.
Proof. induction s1 as [|a s1 IH]; cbn; [reflexivity|]. now rewrite <- IH. Qed.

Lemma str_chars (s : string) : PyStr.str (PyStr.chars s) = s.
Proof. apply string_of_list_ascii_of_string. Qed.

Lemma split_acc_run (sep : ascii) (l : list ascii) :
  forall cur rest,
    existsb (Ascii.eqb sep) l = false ->
    PyStr.split_acc sep cur (l ++ rest)
    = PyStr.split_acc sep (List.rev l ++ cur) rest.
Proof.
  induction l as [|a l IH]; intros cur rest Hl; cbn; [reflexivity|].
  cbn in Hl. apply orb_false_elim in Hl as [Ha Hl].
  rewrite Ascii.eqb_sym in Ha. rewrite Ha, IH by exact Hl.
  now rewrite <- app_assoc.
Qed.

(** Splitting the text of a program gives back its lines. *)
Lemma split_program (lines : list string) :
  lines <> [] ->
  Forall (fun ln => PyStr.mem "010" ln = false) lines ->
  PyStr.split "010" (program lines) = lines.
Proof.
  unfold program, PyStr.join, PyStr.split.
  induction lines as [|x rest IH]; intros Hne Hall; [contradiction|].
  inversion Hall as [|? ? Hx Hrest]; subst. unfold PyStr.mem in Hx.
  destruct rest as [|y rest'].
  - cbn [String.concat].
    rewrite <- (app_nil_r (PyStr.chars x)), split_acc_run by exact Hx.
    cbn. now rewrite app_nil_r, rev_involutive, str_chars.
  - change (String.concat (String "010" "") (x :: y :: rest'))
      with (x ++ String "010" (String.concat (String "010" "") (y :: rest')))%string.
    rewrite chars_app, split_acc_run by exact Hx.
    cbn [PyStr.chars list_ascii_of_string PyStr.split_acc].
    rewrite Ascii.eqb_refl, app_nil_r, rev_involutive, str_chars.
    f_equal. apply IH; [discriminate | exact Hrest].
Qed.

(** ** C1: the range of a branch *)

Lemma far_first_line :
  Interp.interpret_line "b.ne w10, 1f" (Interp.locals0, Context.init 0)
  = Ok (Interp.mkLocals (Some 0%nat) true, one_level 1 (filling [branch_word])).
Proof. vm_compute. reflexivity. Qed.

Lemma far_nop_line (b : list Z) :
  Interp.interpret_line "nop"
    (Interp.mkLocals (Some 0%nat) true, one_level 1 (filling b))
  = Ok (Interp.mkLocals (Some 0%nat) true, one_level 1 (filling (b ++ [0]))).
Proof. vm_compute. reflexivity. Qed.

Lemma far_nop_lines (n : nat) :
  forall b,
    Interp.interpret_lines (List.repeat "nop" n)
      (Interp.mkLocals (Some 0%nat) true, one_level 1 (filling b))
    = Ok (Interp.mkLocals (Some 0%nat) true,
          one_level 1 (filling (b ++ List.repeat 0 n))).
Proof.
  induction n as [|n IH]; intros b; cbn [List.repeat Interp.interpret_lines].
  - now rewrite app_nil_r.
  - rewrite far_nop_line. cbn [rbind]. rewrite IH.
    now rewrite <- app_assoc.
Qed.

Lemma far_label_line (b : list Z) :
  Interp.interpret_line "1:"
    (Interp.mkLocals (Some 0%nat) true, one_level 1 (filling b))
  = rbind (Interp.define_numeric 1 (filling b))
      (fun lv => Ok (Interp.mkLocals (Some 0%nat) true, one_level 1 lv)).
Proof.
  unfold Interp.interpret_line.
  change (Interp.parse_line "1:") with (Some (0%nat, "1:")).
  unfold Interp.run_line.
  change (Interp.enter_line 0 (Interp.mkLocals (Some 0%nat) true)
            (one_level 1 (filling b)))
    with (Ok (one_level 1 (filling b))).
  cbn [rbind].
  change (Interp.split_given_code "1:") with (Ok (None : option Z, "1:")).
  cbn [rbind].
  change (Interp.tokens "1:") with ["1:"].
  unfold Interp.labels_of_line.
  change (Interp.label_test ["1:"]) with (Ok (Some true)).
  cbn [rbind].
  change (Operand.tok ["1:"] 0) with (Ok "1:").
  cbn [rbind].
  unfold Interp.define_label.
  change (PyStr.endswith ":" "1:") with true. cbv iota.
  change (PyStr.drop_last "1:") with "1".
  change (Interp.call_is_num (Interp.mkLocals (Some 0%nat) true) "1")
    with (Ok true).
  cbn [rbind].
  change (PyStr.int 10 "1") with (Ok 1).
  cbn [rbind].
  change (Context.cur (one_level 1 (filling b))) with (Ok (filling b)).
  cbn [rbind].
  destruct (Interp.define_numeric 1 (filling b)) as [lv|e]; reflexivity.
Qed.


Lemma far_define (zeros : list Z) (d : Z) :
  PyList.len zeros = d ->
  d < 36768 ->
  Interp.define_numeric 1 (filling (branch_word :: zeros))
  = Ok (Level.mk 0 0 ((branch_word + Z.land d 0xffff) :: zeros) None None
          ∅ [] {[1 := (d + 1) * 8]} ∅).
Proof.
  intros Hlen Hd.
  assert (Hd0 : 0 <= d) by (rewrite <- Hlen; apply len_nonneg).
  unfold Interp.define_numeric.
  change (Level.num_refs (filling (branch_word :: zeros)) !! 1)
    with (Some [mkRef (LNum 1) 0 "rel"]).
  assert (Hoff : Level.offset (filling (branch_word :: zeros)) = (d + 1) * 8).
  { unfold Level.offset, filling, PyList.len in *. cbn [Level.buffer List.length].
    rewrite Nat2Z.inj_succ, Hlen. lia. }
  rewrite Hoff. cbn [Level.process_relocs ref_type ref_offset].
  change (py_assert ("rel" =? "rel")%string) with (Ok tt). cbn [rbind].
  assert (Hrel : resolve_rel ((d + 1) * 8) 0 = d).
  { unfold resolve_rel. rewrite Z.sub_0_r, Z.div_mul by lia. lia. }
  rewrite Hrel, to_int16_in_range by lia. cbn [rbind].
  change (Level.buffer_add_value 0 (Z.land d 65535)
            (filling (branch_word :: zeros)))
    with (Ok (Level.with_buffer ((branch_word + Z.land d 0xffff) :: zeros)
                (filling (branch_word :: zeros)))).
  cbn [rbind]. unfold Level.offset, filling, PyList.len in *.
  cbn [Level.buffer Level.with_buffer List.length Level.with_num_refs
       Level.with_num_labels Level.id Level.indent Level.call_addr_offset
       Level.call_len_offset Level.labels Level.label_refs Level.num_labels
       Level.num_refs].
  replace (Z.of_nat (S (List.length zeros)) * 8) with ((d + 1) * 8)
    by (rewrite Nat2Z.inj_succ, Hlen; lia).
  reflexivity.
Qed.

Lemma far_end_of_text (w off : Z) (zeros : list Z) :
  rmap completed_words
    (Interp.end_of_text
       (one_level 1 (Level.mk 0 0 (w :: zeros) None None ∅ [] {[1 := off]} ∅)))
  = Ok [(0, w :: zeros)].
Proof. vm_compute. reflexivity. Qed.

Lemma far_lines_have_no_newline (n : nat) :
  Forall (fun ln => PyStr.mem "010" ln = false) (far_branch_lines n).
Proof.
  unfold far_branch_lines. constructor; [reflexivity|].
  apply Forall_app. split; [|now constructor].
  induction n; cbn; constructor; auto.
Qed.

Lemma low16_of_branch_word (x : Z) :
  0 <= x < 65536 -> Z.land (branch_word + x) 0xffff = x.
Proof.
  intros Hx. change 0xffff with (Z.ones 16). rewrite Z.land_ones by lia.
  change branch_word with (24189524258816 * 2 ^ 16).
  rewrite Z.add_comm, Z.mod_add by lia. apply Z.mod_small. lia.
Qed.

(** C1, on the code: the branch over [d] words, for every [d] from 32768
    to 36767, is assembled, although its distance [d] is no signed 16-bit
    value; the 16 bits stored for it read back as [d - 65536]. *)
Theorem far_branch_wraps (d : Z) :
  32768 <= d < 36768 ->
  exists (w : Z) (rest : list Z),
    rmap completed_words (assemble no_tables 0 (far_branch (Z.to_nat d)))
    = Ok [(0, w :: rest)]
    /\ PyList.len rest = d
    /\ resolve_rel (Level.offset (filling (branch_word :: rest))) 0 = d
    /\ w = branch_word + d
    /\ decode_int16 w = d - 65536.
Proof.
  intros Hd.
  exists (branch_word + d), (List.repeat 0 (Z.to_nat d)).
  assert (Hlen : PyList.len (List.repeat 0 (Z.to_nat d)) = d).
  { unfold PyList.len. rewrite repeat_length. lia. }
  assert (Hland : Z.land d 0xffff = d).
  { change 0xffff with (Z.ones 16). rewrite Z.land_ones by lia.
    apply Z.mod_small. lia. }
  split.
  - unfold assemble, far_branch.
    cbn [no_tables parse_asm shaders memory descriptors Context.add_shaders
         Context.add_memory Context.add_descriptors rbind].
    unfold Interp.interpret_text.
    rewrite split_program
      by (discriminate || apply far_lines_have_no_newline).
    unfold Interp.interpret_program, far_branch_lines.
    cbn [Interp.interpret_lines]. rewrite far_first_line. cbn [rbind].
    rewrite interpret_lines_app, far_nop_lines. cbn [rbind Interp.interpret_lines].
    rewrite far_label_line.
    change ([branch_word] ++ List.repeat 0 (Z.to_nat d))
      with (branch_word :: List.repeat 0 (Z.to_nat d)).
    rewrite (far_define _ d Hlen) by lia. cbn [rbind].
    rewrite Hland. apply far_end_of_text.
  - split; [exact Hlen|]. split; [|split; [reflexivity|]].
    + unfold resolve_rel, Level.offset, filling. cbn [Level.buffer].
      change (branch_word :: List.repeat 0 (Z.to_nat d))
        with ([branch_word] ++ List.repeat 0 (Z.to_nat d)).
      rewrite len_app, Hlen. change (PyList.len [branch_word]) with 1.
      rewrite Z.sub_0_r, Z.div_mul by lia. lia.
    + unfold decode_int16. rewrite low16_of_branch_word by lia.
      replace (d <? 32768) with false by (symmetry; apply Z.ltb_ge; lia).
      reflexivity.
Qed.

(** In range, the stored 16 bits read back as the distance. *)
Lemma to_int16_round_trip (d : Z) :
  -32768 <= d < 32768 ->
  exists v, to_int16 d = Ok v /\ decode_int16 v = d.
Proof.
  intros Hd. exists (Z.land d 0xffff).
  split; [apply to_int16_in_range; lia|].
  assert (Hmod : Z.land d 0xffff = if d <? 0 then d + 65536 else d).
  { change 0xffff with (Z.ones 16). rewrite Z.land_ones by lia.
    destruct (Z.ltb_spec d 0) as [Hn|Hp].
    - replace d with (d + 65536 + -1 * 2 ^ 16) at 1 by lia.
      rewrite Z.mod_add by lia. apply Z.mod_small. lia.
    - apply Z.mod_small. lia. }
  unfold decode_int16. rewrite Hmod.
  assert (Hlow : forall x, 0 <= x < 65536 -> Z.land x 0xffff = x).
  { intros x Hx. change 0xffff with (Z.ones 16). rewrite Z.land_ones by lia.
    apply Z.mod_small. lia. }
  destruct (Z.ltb_spec d 0) as [Hn|Hp]; rewrite Hlow by lia.
  - replace (d + 65536 <? 32768) with false by (symmetry; apply Z.ltb_ge; lia).
    lia.
  - replace (d <? 32768) with true by (symmetry; apply Z.ltb_lt; lia).
    reflexivity.
Qed.

(** ** The theorems at concrete inputs *)

Lemma far_branch_wraps_witness :
  32768 <= 32768 < 36768
  /\ exists (w : Z) (rest : list Z),
       rmap completed_words (assemble no_tables 0 (far_branch (Z.to_nat 32768)))
       = Ok [(0, w :: rest)]
       /\ PyList.len rest = 32768
       /\ resolve_rel (Level.offset (filling (branch_word :: rest))) 0 = 32768
       /\ w = branch_word + 32768
       /\ decode_int16 w = 32768 - 65536.
Proof. split; [lia | apply (far_branch_wraps 32768); lia]. Defined.



Lemma odd_descriptor_entry_dropped_witness :
  exists c' (buf : list Z) (last : Z) (a : Alloc.t),
    Context.add_descriptors [("index_buffer", [DInt 0; DInt 1; DInt 2])]
      (Context.init 0) = Ok c'
    /\ Z.odd (entries [DInt 0; DInt 1; DInt 2]) = true
    /\ PyList.len (buf ++ [last]) = 3
    /\ Dict.get "index_buffer" (Context.allocs c') = Ok a
    /\ Alloc.buffer a = Context.pack_pairs buf
    /\ PyList.len (Alloc.buffer a) = 1
    /\ Alloc.size a = 8.
Proof.
  eexists.
  match goal with
  | |- exists buf last a, ?L = Ok ?c' /\ _ =>
      assert (Hrun : L = Ok c') by (vm_compute; reflexivity);
      destruct (odd_descriptor_entry_dropped "index_buffer"
                  [DInt 0; DInt 1; DInt 2] (Context.init 0) c' Hrun eq_refl)
        as (buf & last & a & E1 & _ & E3 & E4 & E5 & E6 & _)
  end.
  exists buf, last, a. repeat (split; [assumption || reflexivity|]). exact E6.
Defined.





(** * Further properties of the code *)

(** ** Instruction words *)

Lemma testbit_ones_nonneg' (k m : Z) :
  0 <= k -> 0 <= m -> Z.testbit (Z.ones k) m = (m <? k).
Proof.
  intros Hk Hm. destruct (Z.ltb_spec m k).
  - apply Z.ones_spec_low. lia.
  - apply Z.ones_spec_high. lia.
Qed.

Lemma testbit_above (x k n : Z) :
  0 <= x < 2 ^ k -> 0 <= k <= n -> Z.testbit x n = false.
Proof.
  intros Hx Hk. destruct (Z.eq_dec x 0) as [->|]; [apply Z.bits_0|].
  apply Z.bits_above_log2; [lia|].
  apply Z.lt_le_trans with k; [|lia]. apply Z.log2_lt_pow2; lia.
Qed.

(** Equality of integers bit by bit: the bits of [lor], [land] and shifts
    are spelled out, bits at negative positions are cleared and the
    comparisons of positions decided. *)
Ltac bits_open :=
  repeat first
    [ rewrite Z.lor_spec | rewrite Z.land_spec
    | rewrite Z.shiftl_spec by lia | rewrite Z.shiftr_spec by lia
    | rewrite testbit_ones_nonneg' by lia
    | match goal with
      | |- context [Z.testbit ?a ?i] => rewrite (Z.testbit_neg_r a i) by lia
      end ].

Ltac bits_decide :=
  repeat match goal with
    | |- context [?a <? ?b] =>
        first [ replace (a <? b) with true by (symmetry; apply Z.ltb_lt; lia)
              | replace (a <? b) with false by (symmetry; apply Z.ltb_ge; lia) ]
    end;
  cbn [andb orb];
  rewrite ?andb_true_r, ?andb_false_r, ?orb_false_r;
  cbn [andb orb].

Ltac bits :=
  apply Z.bits_inj'; intros n Hn; bits_open.

Lemma make_code_of_fields (h : Z) :
  Interp.make_code (Z.shiftr h 56) (Z.land (Z.shiftr h 48) 0xff)
    (Z.land h 0xffffffffffff) = h.
Proof.
  unfold Interp.make_code.
  change 0xff with (Z.ones 8). change 0xffffffffffff with (Z.ones 48).
  bits.
  destruct (Z.ltb_spec n 48) as [H48|H48];
    [|destruct (Z.ltb_spec n 56) as [H56|H56]];
    bits_open; bits_decide; try reflexivity; f_equal; lia.
Qed.

(** X1.  An [unk] line with one hexadecimal literal assembles to that
    literal: the line is split into [cmd], [addr] and [value], and the
    word the end of the loop body builds from them is the literal again,
    whatever its size. *)
Theorem unk_literal_is_the_word (orig w : string) (h : Z) (c : Context.t) :
  Operand.hx w = Ok h ->
  exists cmd addr value,
    Interp.dispatch orig ["unk"; w] c = Ok (Interp.Emit cmd addr value c)
    /\ Interp.make_code cmd addr value = h.
Proof.
  intros Hh.
  exists (Z.shiftr h 56), (Z.land (Z.shiftr h 48) 0xff), (Z.land h 0xffffffffffff).
  split; [|apply make_code_of_fields].
  unfold Interp.dispatch.
  change (Operand.tok ["unk"; w] 0) with (@Ok string "unk"). cbn [rbind].
  change (String.eqb "unk" "!cs") with false. cbn match.
  cbn -[Encode.unk Interp.emit_with].
  unfold Interp.emit_with, Encode.unk.
  change (Operand.len_is ["unk"; w] 2) with true. cbn match.
  change (Operand.tok ["unk"; w] 1) with (@Ok string w). cbn [rbind].
  rewrite Hh. reflexivity.
Qed.

Lemma unk_literal_is_the_word_witness :
  exists cmd addr value,
    Interp.dispatch "unk 1600000060000001" ["unk"; "1600000060000001"]
      (Context.init 0)
    = Ok (Interp.Emit cmd addr value (Context.init 0))
    /\ Interp.make_code cmd addr value = 0x1600000060000001.
Proof.
  apply (unk_literal_is_the_word _ "1600000060000001" 0x1600000060000001).
  reflexivity.
Defined.

Lemma make_code_top (cmd addr value : Z) :
  0 <= value < 2 ^ 48 ->
  Z.shiftr (Interp.make_code cmd addr value) 48 = Z.lor (Z.shiftl cmd 8) addr.
Proof.
  intros Hv. unfold Interp.make_code.
  pose proof (testbit_above value 48) as Hvb.
  bits. rewrite (Hvb (n + 48)) by lia. rewrite orb_false_r.
  replace (n + 48 - 56) with (n - 8) by lia.
  replace (n + 48 - 48) with n by lia. reflexivity.
Qed.

Lemma make_code_tag (cmd addr value : Z) :
  0 <= addr < 2 ^ 8 -> 0 <= value < 2 ^ 48 ->
  Z.shiftr (Interp.make_code cmd addr value) 48 = cmd * 256 + addr.
Proof.
  intros Ha Hv. rewrite make_code_top by exact Hv.
  pose proof (testbit_above addr 8) as Hab.
  assert (Hdisj : Z.land (Z.shiftl cmd 8) addr = 0).
  { bits. rewrite Z.bits_0. destruct (Z.ltb_spec n 8).
    - bits_open. reflexivity.
    - rewrite Hab by lia. apply andb_false_r. }
  rewrite <- Z.lxor_lor, <- Z.add_nocarry_lxor by exact Hdisj.
  rewrite Z.shiftl_mul_pow2 by lia. reflexivity.
Qed.

(** X2.  The layout of an instruction word.  With an address field in
    [0, 2^8) and a value field in [0, 2^48), the fields are read back from
    [(cmd << 56) | (addr << 48) | value] as [unk] reads them, and the bits
    from 48 up are [cmd * 256 + addr]: the tag the scan of a [call]
    compares with [0x100 + target] and [0x200 + num]. *)
Theorem word_fields_recovered (cmd addr value : Z) :
  0 <= addr < 2 ^ 8 -> 0 <= value < 2 ^ 48 ->
  Z.shiftr (Interp.make_code cmd addr value) 56 = cmd
  /\ Z.land (Z.shiftr (Interp.make_code cmd addr value) 48) 0xff = addr
  /\ Z.land (Interp.make_code cmd addr value) 0xffffffffffff = value
  /\ Z.shiftr (Interp.make_code cmd addr value) 48 = cmd * 256 + addr.
Proof.
  intros Ha Hv.
  pose proof (testbit_above addr 8) as Hab.
  pose proof (testbit_above value 48) as Hvb.
  split; [|split; [|split]].
  - unfold Interp.make_code. bits.
    rewrite (Hvb (n + 56)), (Hab (n + 56 - 48)) by lia.
    rewrite !orb_false_r. f_equal. lia.
  - rewrite make_code_top by exact Hv. change 0xff with (Z.ones 8). bits.
    destruct (Z.ltb_spec n 8); bits_open; bits_decide; [reflexivity|].
    symmetry. apply Hab; lia.
  - unfold Interp.make_code. change 0xffffffffffff with (Z.ones 48). bits.
    destruct (Z.ltb_spec n 48); bits_open; bits_decide; [reflexivity|].
    symmetry. apply Hvb; lia.
  - apply make_code_tag; assumption.
Qed.

Lemma word_fields_recovered_witness :
  Z.shiftr (Interp.make_code 1 0x48 5) 56 = 1
  /\ Z.land (Z.shiftr (Interp.make_code 1 0x48 5) 48) 0xff = 0x48
  /\ Z.land (Interp.make_code 1 0x48 5) 0xffffffffffff = 5
  /\ Z.shiftr (Interp.make_code 1 0x48 5) 48 = 1 * 256 + 0x48.
Proof. apply (word_fields_recovered 1 0x48 5); lia. Defined.

(** X3.  A branch at byte offset [source] to a label at byte offset
    [target], both multiples of 8, with a distance in the signed 16-bit
    range: [to_int16] accepts the distance, the stored value is an
    unsigned 16-bit number, and read back as a signed distance it leads
    from the branch to the label. *)
Theorem branch_distance_round_trip (target source : Z) :
  target mod 8 = 0 -> source mod 8 = 0 ->
  -32768 <= resolve_rel target source < 32768 ->
  exists v,
    to_int16 (resolve_rel target source) = Ok v
    /\ 0 <= v < 65536
    /\ source + 8 * (decode_int16 v + 1) = target.
Proof.
  intros Ht Hs Hr.
  destruct (to_int16_round_trip _ Hr) as (v & Hv & Hd).
  exists v. split; [exact Hv|]. split.
  - apply to_int16_ok in Hv as [_ ->].
    change 0xffff with (Z.ones 16). rewrite Z.land_ones by lia.
    apply Z.mod_pos_bound. lia.
  - rewrite Hd. unfold resolve_rel.
    assert (Hm : (target - source) mod 8 = 0).
    { rewrite Zminus_mod, Ht, Hs. reflexivity. }
    pose proof (Z.div_mod (target - source) 8 ltac:(lia)). lia.
Qed.

Lemma branch_distance_round_trip_witness :
  exists v,
    to_int16 (resolve_rel 0 80) = Ok v
    /\ 0 <= v < 65536
    /\ 80 + 8 * (decode_int16 v + 1) = 0.
Proof.
  apply (branch_distance_round_trip 0 80); [reflexivity|reflexivity|].
  change (resolve_rel 0 80) with (-11). lia.
Defined.




(** X5.  [movp] appends two words.  Their low 32 bits are the low and the
    high half of the value modulo [2^64]: a larger or a negative value is
    truncated, not rejected.  For a register below [0xff] the words are the
    words of two 32-bit moves ([cmd] 2) to the register and to the next
    one. *)
Theorem movp_halves (s : list string) (ws : list Z) :
  Encode.movp s = Ok ws ->
  exists w1 w2 addr value lo hi,
    Operand.tok s 1 = Ok w1 /\ Operand.reg w1 = Ok addr
    /\ Operand.tok s 2 = Ok w2
    /\ PyStr.int 0 (PyStr.strip_chars "#" w2) = Ok value
    /\ ws = [lo; hi]
    /\ Z.land lo 0xffffffff + 2 ^ 32 * Z.land hi 0xffffffff = value mod 2 ^ 64
    /\ (0 <= addr < 255 ->
        lo = Interp.make_code 2 addr (value mod 2 ^ 32)
        /\ hi = Interp.make_code 2 (addr + 1) (value / 2 ^ 32 mod 2 ^ 32)
        /\ Z.shiftr lo 48 = 0x200 + addr
        /\ Z.shiftr hi 48 = 0x200 + addr + 1).
Proof.
  unfold Encode.movp. intros H.
  apply rbind_ok in H as (_ & _ & H).
  apply rbind_ok in H as (c1 & _ & H).
  apply rbind_ok in H as (_ & _ & H).
  apply rbind_ok in H as (w1 & Hw1 & H).
  apply rbind_ok in H as (addr & Haddr & H).
  apply rbind_ok in H as (w2 & Hw2 & H).
  apply rbind_ok in H as (value & Hvalue & H). injection H as <-.
  exists w1, w2, addr, value. do 2 eexists.
  do 4 (split; [eassumption|]). split; [reflexivity|].
  assert (Hlow : forall a x,
             Z.land (Z.lor (Z.lor (Z.shiftl 2 56) (Z.shiftl a 48))
                       (Z.land x 0xffffffff)) 0xffffffff
             = x mod 2 ^ 32).
  { intros a x. rewrite <- Z.land_ones by lia.
    change 0xffffffff with (Z.ones 32).
    apply Z.bits_inj'. intros n Hn. bits_open.
    destruct (Z.ltb_spec n 32); bits_open; bits_decide; reflexivity. }
  assert (Hhalf : forall x, Z.land x 0xffffffff = x mod 2 ^ 32).
  { intros x. change 0xffffffff with (Z.ones 32). apply Z.land_ones. lia. }
  split.
  - rewrite !Hlow. rewrite Z.shiftr_div_pow2 by lia.
    change (2 ^ 64) with (2 ^ 32 * 2 ^ 32).
    rewrite Z.rem_mul_r by lia. lia.
  - intros Ha. rewrite !Hhalf, Z.shiftr_div_pow2 by lia.
    split; [reflexivity|]. split; [reflexivity|].
    pose proof (Z.mod_pos_bound value (2 ^ 32) ltac:(lia)).
    pose proof (Z.mod_pos_bound (value / 2 ^ 32) (2 ^ 32) ltac:(lia)).
    fold (Interp.make_code 2 addr (value mod 2 ^ 32)).
    fold (Interp.make_code 2 (addr + 1) (value / 2 ^ 32 mod 2 ^ 32)).
    rewrite !make_code_tag by lia. lia.
Qed.

Lemma movp_halves_witness :
  exists w1 w2 addr value lo hi,
    Operand.tok ["movp"; "x10"; "#0x123456789abcdef0"] 1 = Ok w1
    /\ Operand.reg w1 = Ok addr
    /\ Operand.tok ["movp"; "x10"; "#0x123456789abcdef0"] 2 = Ok w2
    /\ PyStr.int 0 (PyStr.strip_chars "#" w2) = Ok value
    /\ [0x021000009abcdef0; 0x0211000012345678] = [lo; hi]
    /\ Z.land lo 0xffffffff + 2 ^ 32 * Z.land hi 0xffffffff = value mod 2 ^ 64
    /\ (0 <= addr < 255 ->
        lo = Interp.make_code 2 addr (value mod 2 ^ 32)
        /\ hi = Interp.make_code 2 (addr + 1) (value / 2 ^ 32 mod 2 ^ 32)
        /\ Z.shiftr lo 48 = 0x200 + addr
        /\ Z.shiftr hi 48 = 0x200 + addr + 1).
Proof.
  apply (movp_halves ["movp"; "x10"; "#0x123456789abcdef0"]
           [0x021000009abcdef0; 0x0211000012345678]).
  reflexivity.
Defined.

(** ** The first line of a text *)

Lemma enter_first_line (indent : nat) (b : bool) (c : Context.t) :
  Interp.enter_line indent (Interp.mkLocals None b) c
  = Ok (Context.with_is_call false (Context.set_l (Context.push_level indent c))).
Proof. reflexivity. Qed.

Lemma interpret_blank_lines (lines : list string) :
  forall st,
    Forall (fun ln => Interp.parse_line ln = None) lines ->
    Interp.interpret_lines lines st = Ok st.
Proof.
  induction lines as [|ln rest IH]; intros st H; [reflexivity|].
  inversion H as [|? ? Hln Hrest]; subst.
  cbn [Interp.interpret_lines]. unfold Interp.interpret_line at 1.
  rewrite Hln. cbn [rbind]. apply IH, Hrest.
Qed.

(** X6.  The nested function [is_num] is defined in the loop body below
    its first use.  When the first line of a text that is not blank starts
    with a label, or holds a single token, [is_num] is called before it is
    bound and the run ends with [UnboundLocalError]. *)
Theorem first_line_label_or_lone_token
    (blank : list string) (ln line rest : string) (indent : nat) (g : option Z)
    (s0 : string) (s : list string) (more : list string) (c : Context.t) :
  Forall (fun b => Interp.parse_line b = None) blank ->
  Interp.parse_line ln = Some (indent, line) ->
  Interp.split_given_code line = Ok (g, rest) ->
  Interp.tokens rest = s0 :: s ->
  s = [] \/ PyStr.endswith ":" s0 = true ->
  Interp.interpret_program (blank ++ ln :: more) c = Raise UnboundLocalError.
Proof.
  intros Hblank Hp Hg Ht Hs.
  unfold Interp.interpret_program.
  rewrite interpret_lines_app, interpret_blank_lines by exact Hblank.
  cbn [rbind Interp.interpret_lines].
  unfold Interp.interpret_line. rewrite Hp.
  unfold Interp.run_line, Interp.locals0. rewrite enter_first_line. cbn [rbind].
  rewrite Hg. cbn [rbind]. rewrite Ht.
  unfold Interp.labels_of_line, Interp.label_test.
  change (Operand.tok (s0 :: s) 0) with (@Ok string s0). cbn [rbind].
  destruct (PyStr.endswith ":" s0) eqn:E.
  - reflexivity.
  - destruct Hs as [-> | ?]; [|discriminate]. reflexivity.
Qed.

Lemma first_line_label_or_lone_token_witness :
  Interp.interpret_program (["@ header"; ""] ++ "loop: nop" :: ["b loop"])
    (Context.init 0)
  = Raise UnboundLocalError.
Proof.
  apply (first_line_label_or_lone_token ["@ header"; ""] "loop: nop"
           "loop: nop" "loop: nop" 0 None "loop:" ["nop"]).
  - repeat constructor.
  - reflexivity.
  - reflexivity.
  - reflexivity.
  - right. reflexivity.
Defined.

(** ** A text without instructions *)

Lemma add_shaders_levels pa shaders :
  forall c c',
    Context.add_shaders pa shaders c = Ok c' ->
    Context.levels c' = Context.levels c.
Proof.
  induction shaders as [|[sh text] rest IH]; intros c c' H; cbn in H.
  - now injection H as <-.
  - apply rbind_ok in H as (q & _ & H). apply IH in H. exact H.
Qed.

Lemma add_memory_levels memory :
  forall c, Context.levels (Context.add_memory memory c) = Context.levels c.
Proof.
  induction memory as [|[m f] rest IH]; intros c; cbn; [reflexivity|].
  destruct f; rewrite IH; reflexivity.
Qed.

Lemma desc_words_levels a_id words :
  forall buf c buf' c',
    Context.desc_words a_id words buf c = Ok (buf', c') ->
    Context.levels c' = Context.levels c.
Proof.
  induction words as [|w rest IH]; intros buf c buf' c' H;
    cbn [Context.desc_words] in H.
  - now injection H as _ <-.
  - destruct w as [n|alloc|alloc o].
    + eapply IH, H.
    + apply rbind_ok in H as (r & _ & H). apply IH in H. exact H.
    + apply rbind_ok in H as (r & _ & H). apply IH in H. exact H.
Qed.

Lemma add_descriptors_levels descriptors :
  forall c c',
    Context.add_descriptors descriptors c = Ok c' ->
    Context.levels c' = Context.levels c.
Proof.
  induction descriptors as [|[d words] rest IH]; intros c c' H; cbn in H.
  - now injection H as <-.
  - apply rbind_ok in H as ([buf c2] & H2 & H).
    apply desc_words_levels in H2. apply IH in H. rewrite H. exact H2.
Qed.

(** X7.  A text without a line to assemble (every line is empty or a
    comment) creates no Level: [self.levels[0]] after the loop raises
    [IndexError], whatever the tables hold. *)
Theorem text_without_instructions (tb : Tables) (Buffer_id : Z) (text : string)
    (c0 c1 : Context.t) :
  Forall (fun ln => Interp.parse_line ln = None) (PyStr.split "010" text) ->
  Context.add_shaders (parse_asm tb) (shaders tb) (Context.init Buffer_id) = Ok c0 ->
  Context.add_descriptors (descriptors tb) (Context.add_memory (memory tb) c0)
  = Ok c1 ->
  assemble tb Buffer_id text = Raise IndexError.
Proof.
  intros Hblank H0 H1. unfold assemble. rewrite H0. cbn [rbind].
  rewrite H1. cbn [rbind].
  unfold Interp.interpret_text, Interp.interpret_program.
  rewrite interpret_blank_lines by exact Hblank. cbn [rbind].
  unfold Interp.end_of_text.
  apply add_descriptors_levels in H1. rewrite add_memory_levels in H1.
  apply add_shaders_levels in H0. rewrite H0 in H1. cbn in H1.
  rewrite H1. reflexivity.
Qed.

Lemma text_without_instructions_witness :
  assemble one_region 0
    (program [""; "@ nothing to run"; "   "; "  @ still nothing"])
  = Raise IndexError.
Proof.
  eapply (text_without_instructions one_region 0);
    [| reflexivity | reflexivity].
  vm_compute. repeat constructor.
Defined.

(** ** A line dedented below the first line *)



(** ** The memory table *)





(** ** Descriptor tables: the entries read back *)

Lemma unpack_pack (buf : list Z) :
  Forall (fun x => 0 <= x < 2 ^ 32) buf ->
  Z.even (PyList.len buf) = true ->
  unpack_pairs (Context.pack_pairs buf) = buf.
Proof.
  unfold PyList.len.
  induction buf as [buf IH] using (induction_ltof1 _ (@List.length Z)).
  unfold ltof in IH. intros Hall Hev.
  destruct buf as [|x [|y rest]]; [reflexivity|discriminate Hev|].
  inversion Hall as [|? ? Hx Hall']; subst.
  inversion Hall' as [|? ? Hy Hrest]; subst.
  cbn [Context.pack_pairs unpack_pairs List.flat_map app].
  fold (unpack_pairs (Context.pack_pairs rest)).
  rewrite IH; [|simpl; lia|exact Hrest|].
  2:{ cbn [List.length] in Hev. rewrite !Nat2Z.inj_succ in Hev.
      now rewrite Z.even_succ_succ in Hev. }
  pose proof (testbit_above x 32) as Hxb.
  f_equal; [|f_equal].
  - change 0xffffffff with (Z.ones 32).
    apply Z.bits_inj'. intros n Hn. bits_open.
    destruct (Z.ltb_spec n 32); bits_open; bits_decide; [reflexivity|].
    symmetry. apply Hxb; lia.
  - apply Z.bits_inj'. intros n Hn. bits_open.
    rewrite (Hxb (n + 32)) by lia.
    replace (n + 32 - 32) with n by lia. reflexivity.
Qed.

Lemma desc_words_values a_id words :
  forall buf c buf' c',
    Context.desc_words a_id words buf c = Ok (buf', c') ->
    buf' = buf ++ entry_values words
    /\ Context.allocs c' = Context.allocs c
    /\ Context.Buffer_id c' = Context.Buffer_id c.
Proof.
  induction words as [|w rest IH]; intros buf c buf' c' H;
    cbn [Context.desc_words] in H.
  - injection H as <- <-. now rewrite app_nil_r.
  - destruct w as [n|alloc|alloc o].
    + apply IH in H as (-> & ? & ?). now rewrite <- app_assoc.
    + apply rbind_ok in H as (r & _ & H).
      apply IH in H as (-> & ? & ?). now rewrite <- app_assoc.
    + apply rbind_ok in H as (r & _ & H).
      apply IH in H as (-> & ? & ?). now rewrite <- app_assoc.
Qed.

Lemma entry_values_length (words : list DescWord) :
  PyList.len (entry_values words) = entries words.
Proof.
  unfold PyList.len. induction words as [|w rest IH]; [reflexivity|].
  cbn [entry_values List.flat_map entries]. fold (entry_values rest).
  rewrite length_app, Nat2Z.inj_add, IH. now destruct w.
Qed.

(** X10.  A descriptor table with an even number of 32-bit entries, its
    literals in [0, 2^32): the words of its Alloc hold the entries two by
    two, low half first (a reference holds two zero entries), the size is
    4 bytes for each entry, the flags are [0x280f] and the id is the value
    of [Buffer.id] when the table is read. *)
Theorem descriptor_entries_round_trip
    (d : string) (words : list DescWord) (c c' : Context.t) :
  Context.add_descriptors [(d, words)] c = Ok c' ->
  Z.even (entries words) = true ->
  Forall (fun x => 0 <= x < 2 ^ 32) (entry_values words) ->
  exists a,
    Dict.get d (Context.allocs c') = Ok a
    /\ unpack_pairs (Alloc.buffer a) = entry_values words
    /\ Alloc.size a = 4 * entries words
    /\ Alloc.id a = Context.Buffer_id c
    /\ Alloc.flags a = 0x280f
    /\ Context.Buffer_id c' = Context.Buffer_id c + 1.
Proof.
  intros H Hev Hall. cbn [Context.add_descriptors Context.new_alloc] in H.
  apply rbind_ok in H as ([buf c2] & H2 & H). injection H as <-.
  apply desc_words_values in H2 as (-> & Hal & Hid). cbn [app] in *.
  eexists. split; [cbn; apply dict_get_set|].
  cbn [Alloc.buffer Alloc.size Alloc.id Alloc.flags Alloc.new].
  split; [apply unpack_pack; [exact Hall|now rewrite entry_values_length]|].
  split.
  { rewrite pack_pairs_length, entry_values_length.
    apply Z.even_spec in Hev as [k ->].
    rewrite (Z.mul_comm 2 k), Z.div_mul by lia. lia. }
  split; [reflexivity|]. split; [reflexivity|].
  cbn. exact Hid.
Qed.

Lemma descriptor_entries_round_trip_witness :
  exists c',
    Context.add_descriptors [("d", [DInt 1; DInt 2; DName "bufa"])]
      (Context.add_memory [("bufa", MSize 4096)] (Context.init 0)) = Ok c'
    /\ exists a,
         Dict.get "d" (Context.allocs c') = Ok a
         /\ unpack_pairs (Alloc.buffer a)
            = entry_values [DInt 1; DInt 2; DName "bufa"]
         /\ Alloc.size a = 4 * entries [DInt 1; DInt 2; DName "bufa"]
         /\ Alloc.id a
            = Context.Buffer_id
                (Context.add_memory [("bufa", MSize 4096)] (Context.init 0))
         /\ Alloc.flags a = 0x280f
         /\ Context.Buffer_id c'
            = Context.Buffer_id
                (Context.add_memory [("bufa", MSize 4096)] (Context.init 0)) + 1.
Proof.
  eexists. split; [vm_compute; reflexivity|].
  apply (descriptor_entries_round_trip "d" [DInt 1; DInt 2; DName "bufa"]
           (Context.add_memory [("bufa", MSize 4096)] (Context.init 0))).
  - vm_compute. reflexivity.
  - reflexivity.
  - cbn. repeat constructor; lia.
Defined.

(** ** Comments and letter case *)

Lemma split_head (sep : ascii) (a b : string) :
  PyStr.mem sep a = false ->
  head (PyStr.split sep (a ++ String sep b)) = Some a.
Proof.
  intros Ha. unfold PyStr.split, PyStr.mem in *.
  rewrite chars_app, split_acc_run by exact Ha.
  cbn [PyStr.chars list_ascii_of_string PyStr.split_acc].
  rewrite Ascii.eqb_refl, app_nil_r, rev_involutive, str_chars. reflexivity.
Qed.

Lemma split_whole (sep : ascii) (a : string) :
  PyStr.mem sep a = false -> PyStr.split sep a = [a].
Proof.
  intros Ha. unfold PyStr.split, PyStr.mem in *.
  rewrite <- (app_nil_r (PyStr.chars a)), split_acc_run by exact Ha.
  cbn. now rewrite app_nil_r, rev_involutive, str_chars.
Qed.

(** X11.  What follows the first [@] of a line is a comment: the line is
    read as the text before it. *)
Theorem comment_is_ignored (a b : string) :
  PyStr.mem "@" a = false ->
  Interp.parse_line (a ++ String "@" b) = Interp.parse_line a.
Proof.
  intros Ha. unfold Interp.parse_line, Interp.clean.
  now rewrite split_head, split_whole by exact Ha.
Qed.

Lemma comment_is_ignored_witness :
  Interp.parse_line ("  mov x10, #1 " ++ String "@" " sets x10 @ twice")
  = Interp.parse_line "  mov x10, #1 ".
Proof. apply (comment_is_ignored "  mov x10, #1 " " sets x10 @ twice"). reflexivity. Defined.

Lemma lower_char_facts (c : ascii) :
  PyStr.lower_char (PyStr.lower_char c) = PyStr.lower_char c
  /\ Ascii.eqb (PyStr.lower_char c) "@" = Ascii.eqb c "@"
  /\ Ascii.eqb (PyStr.lower_char c) "009" = Ascii.eqb c "009"
  /\ Ascii.eqb (PyStr.lower_char c) "010" = Ascii.eqb c "010"
  /\ Ascii.eqb (PyStr.lower_char c) "013" = Ascii.eqb c "013"
  /\ PyStr.is_space (PyStr.lower_char c) = PyStr.is_space c.
Proof.
  destruct c as [[] [] [] [] [] [] [] []]; repeat split; reflexivity.
Qed.

Lemma chars_str (l : list ascii) : PyStr.chars (PyStr.str l) = l.
Proof. apply list_ascii_of_string_of_list_ascii. Qed.

Lemma chars_lower (s : string) :
  PyStr.chars (PyStr.lower s) = List.map PyStr.lower_char (PyStr.chars s).
Proof. unfold PyStr.lower. apply chars_str. Qed.

Lemma lower_str (l : list ascii) :
  PyStr.lower (PyStr.str l) = PyStr.str (List.map PyStr.lower_char l).
Proof. unfold PyStr.lower. now rewrite chars_str. Qed.

Lemma lower_lower (s : string) : PyStr.lower (PyStr.lower s) = PyStr.lower s.
Proof.
  unfold PyStr.lower at 1. rewrite chars_lower, List.map_map.
  unfold PyStr.lower. f_equal. apply List.map_ext.
  intros c. apply lower_char_facts.
Qed.

Lemma split_acc_lower (l : list ascii) :
  forall cur,
    PyStr.split_acc "@" (List.map PyStr.lower_char cur)
      (List.map PyStr.lower_char l)
    = List.map PyStr.lower (PyStr.split_acc "@" cur l).
Proof.
  induction l as [|c r IH]; intros cur; cbn [List.map PyStr.split_acc].
  - now rewrite lower_str, List.map_rev.
  - destruct (lower_char_facts c) as (_ & -> & _).
    destruct (Ascii.eqb c "@").
    + cbn [List.map]. rewrite lower_str, List.map_rev. f_equal. apply (IH []).
    + apply (IH (c :: cur)).
Qed.

Lemma expandtabs_lower (l : list ascii) :
  forall col,
    PyStr.expandtabs_from col (List.map PyStr.lower_char l)
    = List.map PyStr.lower_char (PyStr.expandtabs_from col l).
Proof.
  induction l as [|c r IH]; intros col; cbn [List.map PyStr.expandtabs_from];
    [reflexivity|].
  destruct (lower_char_facts c) as (_ & _ & -> & -> & -> & _).
  destruct (Ascii.eqb c "009").
  - rewrite List.map_app, IH. f_equal.
    generalize (8 - col mod 8)%nat. intros n.
    induction n as [|n IHn]; cbn; [reflexivity|]. now rewrite <- IHn.
  - destruct (Ascii.eqb c "010" || Ascii.eqb c "013"); cbn [List.map];
      now rewrite IH.
Qed.

Lemma drop_while_space_lower (l : list ascii) :
  PyStr.drop_while PyStr.is_space (List.map PyStr.lower_char l)
  = List.map PyStr.lower_char (PyStr.drop_while PyStr.is_space l).
Proof.
  induction l as [|c r IH]; cbn [List.map PyStr.drop_while]; [reflexivity|].
  destruct (lower_char_facts c) as (_ & _ & _ & _ & _ & ->).
  destruct (PyStr.is_space c); [exact IH|reflexivity].
Qed.

Lemma clean_lower (ln : string) :
  Interp.clean (PyStr.lower ln) = Interp.clean ln.
Proof.
  unfold Interp.clean, PyStr.split. rewrite chars_lower.
  pose proof (split_acc_lower (PyStr.chars ln) []) as Hs.
  cbn [List.map] in Hs. rewrite Hs. clear Hs.
  destruct (PyStr.split_acc "@" [] (PyStr.chars ln)) as [|h t];
    cbn [List.map head default]; [reflexivity|].
  unfold PyStr.expandtabs, PyStr.rstrip, PyStr.rstrip_by, id.
  rewrite chars_lower, expandtabs_lower, !chars_str.
  rewrite <- List.map_rev, drop_while_space_lower, <- List.map_rev.
  rewrite <- lower_str. apply lower_lower.
Qed.

(** X12.  Letter case does not matter: a line and its lower-case form
    are read alike, and what is left of a line after cleaning holds no
    upper-case letter. *)
Theorem letter_case_is_ignored (ln : string) :
  Interp.parse_line (PyStr.lower ln) = Interp.parse_line ln
  /\ match Interp.parse_line ln with
     | Some (_, line) => PyStr.lower line = line
     | None => True
     end.
Proof.
  split.
  - unfold Interp.parse_line. now rewrite clean_lower.
  - unfold Interp.parse_line.
    destruct (String.eqb (Interp.clean ln) ""); [exact I|].
    unfold PyStr.lstrip, PyStr.lstrip_by.
    rewrite lower_str, <- drop_while_space_lower, <- chars_lower.
    unfold Interp.clean. now rewrite lower_lower.
Qed.

(** ** Symbolic labels at the end of a Level *)

Lemma process_relocs_cons_label (r : Ref) (rest : list Ref) (lv lv' : Level.t) :
  Level.process_relocs (r :: rest) None lv = Ok lv' ->
  exists name to v lv1,
    ref_label r = LName name
    /\ Level.labels lv !! name = Some to
    /\ to_int16 (resolve_rel to (ref_offset r)) = Ok v
    /\ Level.buffer_add_value (ref_offset r) v lv = Ok lv1
    /\ Level.process_relocs rest None lv1 = Ok lv'.
Proof.
  cbn [Level.process_relocs]. intros H.
  apply rbind_ok in H as (_ & _ & H).
  apply rbind_ok in H as (to & Hto & H).
  apply rbind_ok in H as (v & Hv & H).
  apply rbind_ok in H as (lv1 & Hadd & H).
  destruct (ref_label r) as [name|n]; [|discriminate].
  destruct (Level.labels lv !! name) as [to'|] eqn:E; [|discriminate].
  injection Hto as ->. exists name, to, v, lv1. auto.
Qed.

Lemma process_relocs_labels_spec (refs : list Ref) :
  forall lv lv',
    Level.process_relocs refs None lv = Ok lv' ->
    Forall (fun r => exists name to,
              ref_label r = LName name
              /\ Level.labels lv !! name = Some to
              /\ -32768 <= resolve_rel to (ref_offset r) < 36768) refs
    /\ (Forall (fun r => 0 <= ref_offset r) refs ->
        NoDup (List.map (fun r => Z.to_nat (ref_offset r / 8)) refs) ->
        (forall r name to,
            In r refs -> ref_label r = LName name ->
            Level.labels lv !! name = Some to ->
            exists w,
              Level.buffer lv !! Z.to_nat (ref_offset r / 8) = Some w
              /\ Level.buffer lv' !! Z.to_nat (ref_offset r / 8)
                 = Some (w + Z.land (resolve_rel to (ref_offset r)) 0xffff))
        /\ (forall j,
              ~ In j (List.map (fun r => Z.to_nat (ref_offset r / 8)) refs) ->
              Level.buffer lv' !! j = Level.buffer lv !! j)).
Proof.
  induction refs as [|r rest IH]; intros lv lv' H.
  - injection H as <-. split; [constructor|].
    intros _ _. split; [intros ? ? ? []|reflexivity].
  - apply process_relocs_cons_label in H
      as (name & to & v & lv1 & Hname & Hto & Hv & Hadd & H).
    pose proof (buffer_add_value_same _ _ _ _ Hadd) as Hs.
    assert (Hlab : Level.labels lv1 = Level.labels lv) by apply Hs.
    apply to_int16_ok in Hv as [Hrange ->].
    apply buffer_add_value_inv in Hadd as (n & w & Hn & Hw & Elv1).
    destruct (IH _ _ H) as [IHa IHb]. split.
    + constructor; [exists name, to; auto|].
      eapply Forall_impl; [exact IHa|]. cbn. intros r' (nm & t & ? & ? & ?).
      exists nm, t. rewrite <- Hlab. auto.
    + intros Hpos Hnd.
      inversion Hpos as [|? ? Hr Hrest]; subst.
      inversion Hnd as [|? ? Hnotin Hnd']; subst.
      rewrite list_elem_of_In in Hnotin.
      assert (Hn' : n = Z.to_nat (ref_offset r / 8)).
      { eapply pylist_index_nonneg, Hn. apply Z.div_pos; lia. }
      subst n.
      destruct (IHb Hrest Hnd') as [IH1 IH2]. cbn in IH1, IH2. split.
      * intros r' name' to' [<- | Hin] Hname' Hto'.
        -- rewrite Hname in Hname'. injection Hname' as <-.
           rewrite Hto in Hto'. injection Hto' as <-.
           exists w. split; [exact Hw|].
           rewrite IH2 by exact Hnotin.
           apply list_lookup_insert_eq. eapply lookup_lt_Some, Hw.
        -- destruct (IH1 r' name' to' Hin Hname') as (w' & Hw' & Hres).
           { cbn. exact Hto'. }
           assert (Hne : Z.to_nat (ref_offset r / 8)
                         <> Z.to_nat (ref_offset r' / 8)).
           { intros E. apply Hnotin. rewrite E.
             apply (in_map (fun r => Z.to_nat (ref_offset r / 8))), Hin. }
           rewrite list_lookup_insert_ne in Hw' by exact Hne.
           exists w'. auto.
      * intros j Hj. cbn in Hj. rewrite IH2 by tauto.
        apply list_lookup_insert_ne. tauto.
Qed.

(** X13.  [Level.finish] succeeds only if every pending symbolic branch
    names a label of the Level and its distance is accepted by
    [to_int16]; it changes nothing but words of the buffer, and for
    branches at distinct words each word receives the 16 bits of its
    distance to the label. *)
Theorem finish_resolves_symbolic_branches (lv lv' : Level.t) :
  Level.finish lv = Ok lv' ->
  same_tables lv lv'
  /\ Forall (fun r => exists name to,
               ref_label r = LName name
               /\ Level.labels lv !! name = Some to
               /\ -32768 <= resolve_rel to (ref_offset r) < 36768)
       (Level.label_refs lv)
  /\ (Forall (fun r => 0 <= ref_offset r) (Level.label_refs lv) ->
      NoDup (List.map (fun r => Z.to_nat (ref_offset r / 8)) (Level.label_refs lv)) ->
      forall r name to,
        In r (Level.label_refs lv) -> ref_label r = LName name ->
        Level.labels lv !! name = Some to ->
        exists w,
          Level.buffer lv !! Z.to_nat (ref_offset r / 8) = Some w
          /\ Level.buffer lv' !! Z.to_nat (ref_offset r / 8)
             = Some (w + Z.land (resolve_rel to (ref_offset r)) 0xffff)).
Proof.
  unfold Level.finish. intros H.
  split; [eapply process_relocs_same, H|].
  destruct (process_relocs_labels_spec _ _ _ H) as [Ha Hb].
  split; [exact Ha|]. intros Hpos Hnd. apply Hb; assumption.
Qed.

Lemma finish_resolves_symbolic_branches_witness :
  exists lv',
    Level.finish two_branches = Ok lv'
    /\ Level.buffer lv' = [branch_word + 2; 0; branch_word + 0; 0]
    /\ same_tables two_branches lv'.
Proof.
  eexists. split; [vm_compute; reflexivity|]. split; [reflexivity|].
  eapply (finish_resolves_symbolic_branches two_branches).
  vm_compute. reflexivity.
Defined.

(** ** The call site a [call] records *)

Lemma with_call_same (lv : Level.t) :
  Level.with_call (Level.call_addr_offset lv) (Level.call_len_offset lv) lv = lv.
Proof. now destruct lv. Qed.

Lemma call_scan_inv (target num ofs : Z) (lv lv' : Level.t) :
  Interp.call_scan target num ofs lv = Ok lv' ->
  exists w,
    PyList.get (Level.buffer lv) ofs = Ok w
    /\ lv' = Level.with_call
               (if Z.shiftr w 48 =? 0x100 + target then Some ofs
                else Level.call_addr_offset lv)
               (if Z.shiftr w 48 =? 0x200 + num then Some ofs
                else Level.call_len_offset lv) lv.
Proof.
  unfold Interp.call_scan. intros H.
  apply rbind_ok in H as (w & Hw & H). exists w. split; [exact Hw|].
  destruct (Z.shiftr w 48 =? 0x100 + target);
    cbn [Level.buffer Level.with_call] in H; rewrite Hw in H; cbn [rbind] in H;
    destruct (Z.shiftr w 48 =? 0x200 + num); injection H as <-;
    rewrite ?with_call_same; reflexivity.
Qed.

Lemma pylist_get_lookup {A} (l : list A) (i : Z) (x : A) :
  0 <= i -> PyList.get l i = Ok x -> l !! Z.to_nat i = Some x.
Proof.
  intros Hi. unfold PyList.get. intros H.
  apply rbind_ok in H as (n & Hn & H).
  apply pylist_index_nonneg in Hn; [|exact Hi]. subst n.
  destruct (l !! Z.to_nat i); [|discriminate]. now injection H as ->.
Qed.

Lemma pylist_get_last_of_one {A} (l : list A) (x y : A) :
  PyList.len l = 1 ->
  PyList.get l (-1) = Ok x -> PyList.get l 0 = Ok y -> x = y.
Proof.
  unfold PyList.len. destruct l as [|a [|b r]]; cbn [List.length]; try lia.
  intros _. cbv. congruence.
Qed.

(** X14.  A [call] in a Level without call-site bookkeeping succeeds only
    if, among the last two words of the Level, one is tagged
    [0x100 + target] and one [0x200 + num]; the offsets it records are
    the indices of these words, and [is_call] is set. *)
Theorem call_records_tagged_words
    (s : list string) (c : Context.t) (lv : Level.t) (step : Interp.Step) :
  Context.cur c = Ok lv ->
  Level.call_addr_offset lv = None ->
  Level.call_len_offset lv = None ->
  Interp.call s c = Ok step ->
  exists cmd num target ca cl wa wl c',
    step = Interp.Emit cmd 0 (Z.lor (Z.shiftl num 32) (Z.shiftl target 40)) c'
    /\ Context.cur c' = Ok (Level.with_call (Some ca) (Some cl) lv)
    /\ Context.is_call c' = true
    /\ 0 <= ca /\ PyList.len (Level.buffer lv) - 2 <= ca < PyList.len (Level.buffer lv)
    /\ 0 <= cl /\ PyList.len (Level.buffer lv) - 2 <= cl < PyList.len (Level.buffer lv)
    /\ Level.buffer lv !! Z.to_nat ca = Some wa
    /\ Z.shiftr wa 48 = 0x100 + target
    /\ Level.buffer lv !! Z.to_nat cl = Some wl
    /\ Z.shiftr wl 48 = 0x200 + num.
Proof.
  intros Hcur Hca Hcl H. unfold Interp.call in H.
  apply rbind_ok in H as (_ & _ & H).
  apply rbind_ok in H as (c1 & _ & H).
  apply rbind_ok in H as (_ & _ & H).
  apply rbind_ok in H as (c2 & _ & H).
  apply rbind_ok in H as (_ & _ & H).
  apply rbind_ok in H as (s0 & _ & H).
  apply rbind_ok in H as (cmd & _ & H).
  apply rbind_ok in H as (w1 & _ & H).
  apply rbind_ok in H as (num & _ & H).
  apply rbind_ok in H as (w2 & _ & H).
  apply rbind_ok in H as (target & _ & H).
  rewrite Hcur in H. cbn [rbind] in H.
  apply rbind_ok in H as (lv1 & H1 & H).
  apply rbind_ok in H as (lv2 & H2 & H).
  apply rbind_ok in H as (ua & Ha & H).
  apply rbind_ok in H as (ul & Hl & H).
  injection H as <-.
  apply py_assert_ok, bool_decide_eq_true in Ha, Hl.
  apply call_scan_inv in H1 as (x & Hx & ->).
  apply call_scan_inv in H2 as (y & Hy & ->).
  cbn [Level.buffer Level.with_call Level.call_addr_offset
       Level.call_len_offset] in *.
  rewrite Hca, Hcl in *.
  set (n := PyList.len (Level.buffer lv)) in *.
  assert (Hn : 1 <= n).
  { unfold PyList.get in Hx. apply rbind_ok in Hx as (k & Hk & _).
    unfold PyList.index in Hk. fold n in Hk.
    destruct ((0 <=? n - 2) && (n - 2 <? n)) eqn:E1; [lia|].
    destruct ((- n <=? n - 2) && (n - 2 <? 0)) eqn:E2; [|discriminate].
    lia. }
  assert (Hy' : Level.buffer lv !! Z.to_nat (n - 1) = Some y).
  { apply pylist_get_lookup; [lia|exact Hy]. }
  assert (Hx' : 2 <= n -> Level.buffer lv !! Z.to_nat (n - 2) = Some x).
  { intros ?. apply pylist_get_lookup; [lia|exact Hx]. }
  assert (Hxy : n = 1 -> x = y).
  { intros E. eapply pylist_get_last_of_one; [exact E| |].
    - replace (-1) with (n - 2) by lia. exact Hx.
    - replace 0 with (n - 1) by lia. exact Hy. }
  assert (Hpick : forall tag,
             is_Some (if Z.shiftr y 48 =? tag then Some (n - 1)
                      else if Z.shiftr x 48 =? tag then Some (n - 2) else None) ->
             exists o w,
               (if Z.shiftr y 48 =? tag then Some (n - 1)
                else if Z.shiftr x 48 =? tag then Some (n - 2) else None) = Some o
               /\ 0 <= o /\ n - 2 <= o < n
               /\ Level.buffer lv !! Z.to_nat o = Some w
               /\ Z.shiftr w 48 = tag).
  { intros tag Hsome.
    destruct (Z.eqb_spec (Z.shiftr y 48) tag) as [Ey|Ey].
    - exists (n - 1), y. repeat split; auto; lia.
    - destruct (Z.eqb_spec (Z.shiftr x 48) tag) as [Ex|Ex].
      + assert (2 <= n).
        { destruct (Z.eq_dec n 1) as [E|]; [|lia].
          apply Hxy in E. congruence. }
        exists (n - 2), x. repeat split; auto; lia.
      + destruct Hsome; discriminate. }
  destruct (Hpick _ Ha) as (ca & wa & Eca & ? & ? & ? & ?).
  destruct (Hpick _ Hl) as (cl & wl & Ecl & ? & ? & ? & ?).
  exists cmd, num, target, ca, cl, wa, wl. eexists.
  split; [reflexivity|].
  split.
  { assert (Ec : Context.cur (Context.set_cur
                   (Level.with_call (Some ca) (Some cl) lv) c)
                 = Ok (Level.with_call (Some ca) (Some cl) lv))
      by (eapply cur_set_cur, Hcur).
    rewrite Eca, Ecl. exact Ec. }
  split; [reflexivity|]. repeat split; auto; lia.
Qed.

Lemma call_records_tagged_words_witness :
  exists cmd num target ca cl wa wl c',
    Interp.Emit 32 0 0x484a00000000
      (Context.with_is_call true
         (one_level 1
            (Level.mk 0 0 [0x0148000000000000; 0x024a000000000000]
               (Some 0) (Some 1) ∅ [] ∅ ∅)))
    = Interp.Emit cmd 0 (Z.lor (Z.shiftl num 32) (Z.shiftl target 40)) c'
    /\ Context.cur c'
       = Ok (Level.with_call (Some ca) (Some cl)
               (Level.mk 0 0 [0x0148000000000000; 0x024a000000000000]
                  None None ∅ [] ∅ ∅))
    /\ Context.is_call c' = true
    /\ 0 <= ca
    /\ PyList.len [0x0148000000000000; 0x024a000000000000] - 2 <= ca
       < PyList.len [0x0148000000000000; 0x024a000000000000]
    /\ 0 <= cl
    /\ PyList.len [0x0148000000000000; 0x024a000000000000] - 2 <= cl
       < PyList.len [0x0148000000000000; 0x024a000000000000]
    /\ [0x0148000000000000; 0x024a000000000000] !! Z.to_nat ca = Some wa
    /\ Z.shiftr wa 48 = 0x100 + target
    /\ [0x0148000000000000; 0x024a000000000000] !! Z.to_nat cl = Some wl
    /\ Z.shiftr wl 48 = 0x200 + num.
Proof.
  apply (call_records_tagged_words ["call"; "w4a"; "x48"]
           (one_level 1
              (Level.mk 0 0 [0x0148000000000000; 0x024a000000000000]
                 None None ∅ [] ∅ ∅))
           (Level.mk 0 0 [0x0148000000000000; 0x024a000000000000]
              None None ∅ [] ∅ ∅)).
  - reflexivity.
  - reflexivity.
  - reflexivity.
  - vm_compute. reflexivity.
Defined.

(** ** Buffer ids *)

Lemma same_buffers_refl c : same_buffers c c.
Proof. repeat split; reflexivity. Qed.

Lemma same_buffers_trans a b c :
  same_buffers a b -> same_buffers b c -> same_buffers a c.
Proof.
  intros (A1 & A2 & A3 & A4 & A5 & A6) (B1 & B2 & B3 & B4 & B5 & B6).
  repeat split; try congruence. now rewrite B4.
Qed.

Lemma same_buffers_fields c c' :
  Context.arena c' = Context.arena c ->
  Context.allocs c' = Context.allocs c ->
  Context.Buffer_id c' = Context.Buffer_id c ->
  Context.levels c' = Context.levels c ->
  Context.completed c' = Context.completed c ->
  Context.reloc c' = Context.reloc c ->
  Context.reloc_split c' = Context.reloc_split c ->
  same_buffers c c'.
Proof.
  intros A B C D E F G. unfold same_buffers, level_ids, alloc_ids.
  now rewrite A, B, C, D, E, F, G.
Qed.

Lemma level_ids_length c c' :
  level_ids c' = level_ids c ->
  List.length (Context.arena c') = List.length (Context.arena c).
Proof.
  unfold level_ids. intros H. apply (f_equal (@List.length Z)) in H.
  now rewrite !length_fmap in H.
Qed.

Lemma same_buffers_keeps c c' : same_buffers c c' -> keeps_ids c c'.
Proof.
  intros (A & B & C & D & R & S) first (N & F & NL & FL & Hf & FR).
  unfold ids_fresh, buffer_ids.
  rewrite A, B, C, R, S, (level_ids_length _ _ A).
  repeat split; try assumption.
  - now rewrite D.
  - now rewrite D.
Qed.

Lemma keeps_ids_refl c : keeps_ids c c.
Proof. intros first H. exact H. Qed.

Lemma keeps_ids_trans a b c : keeps_ids a b -> keeps_ids b c -> keeps_ids a c.
Proof. intros H1 H2 first H. apply H2, H1, H. Qed.

Lemma set_cur_same_buffers c lv lv' :
  Context.cur c = Ok lv -> Level.id lv' = Level.id lv ->
  same_buffers c (Context.set_cur lv' c).
Proof.
  unfold Context.cur, Context.set_cur, Context.deref. intros H E.
  destruct (Context.l c) as [r|]; [|discriminate].
  destruct (Context.arena c !! r) as [x|] eqn:Er; [|discriminate].
  injection H as ->.
  repeat split; try reflexivity. unfold level_ids. cbn.
  rewrite list_fmap_insert, E. apply list_insert_id.
  now rewrite list_lookup_fmap, Er.
Qed.

Lemma set_l_same_buffers c : same_buffers c (Context.set_l c).
Proof.
  unfold Context.set_l.
  destruct (List.rev (Context.levels c)); repeat split; reflexivity.
Qed.

Lemma reloc_in_range_mono (first last last' : Z) (rs : list Reloc) :
  last <= last' ->
  Forall (reloc_in_range first last) rs ->
  Forall (reloc_in_range first last') rs.
Proof.
  intros Hle H. eapply Forall_impl; [exact H|].
  unfold reloc_in_range. intros r. lia.
Qed.

Lemma push_level_keeps ind c : keeps_ids c (Context.push_level ind c).
Proof.
  intros first (N & F & NL & FL & Hf & FR).
  unfold ids_fresh, buffer_ids, level_ids, alloc_ids in *.
  unfold Context.push_level, Context.new_level. cbn.
  rewrite fmap_app. cbn [fmap list_fmap]. rewrite <- !app_assoc. cbn [app].
  rewrite length_app. cbn [List.length].
  repeat split.
  - apply NoDup_app in N as (N1 & N2 & N3).
    rewrite Forall_app in F. destruct F as [F1 F2].
    apply NoDup_app. split; [exact N1|]. split.
    + intros x Hx [-> | Hin]%elem_of_cons.
      * rewrite Forall_forall in F1. specialize (F1 _ Hx). cbn in F1. lia.
      * eapply N2; eassumption.
    + apply NoDup_cons. split; [|exact N3].
      intros Hin. rewrite Forall_forall in F2. specialize (F2 _ Hin).
      cbn in F2. lia.
  - rewrite Forall_app in F. destruct F as [F1 F2].
    apply Forall_app. split; [|apply Forall_cons; split; [cbn; lia|]];
      (eapply Forall_impl; [eassumption|]; cbn; intros; lia).
  - rewrite <- Permutation_middle. apply NoDup_cons. split; [|exact NL].
    intros Hin. rewrite Forall_forall in FL. specialize (FL _ Hin). lia.
  - rewrite <- Permutation_middle. apply Forall_cons. split; [lia|].
    eapply Forall_impl; [exact FL|]. cbn. intros. lia.
  - lia.
  - eapply reloc_in_range_mono; [|exact FR]. lia.
Qed.


Lemma dict_get_in (k : string) (a : Alloc.t) (d : list (string * Alloc.t)) :
  Dict.get k d = Ok a -> Alloc.id a ∈ (fun kv => Alloc.id (snd kv)) <$> d.
Proof.
  induction d as [|[k' v'] r IH]; cbn; [discriminate|].
  destruct (String.eqb k k').
  - intros [= ->]. apply elem_of_cons. now left.
  - intros H. apply elem_of_cons. right. apply IH, H.
Qed.



(** A relocation between buffers of the context *)
Lemma add_reloc_keeps (c c' : Context.t) (r : Reloc) :
  r_dst r ∈ buffer_ids c -> r_src r ∈ buffer_ids c ->
  c' = Context.with_reloc (Context.reloc c ++ [r]) c
  \/ c' = Context.with_reloc_split (Context.reloc_split c ++ [r]) c ->
  keeps_ids c c'.
Proof.
  intros Hd Hs Hc first (N & F & NL & FL & Hf & FR).
  assert (Hr : reloc_in_range first (Context.Buffer_id c) r).
  { rewrite Forall_forall in F. split; apply F; assumption. }
  rewrite Forall_app in FR. destruct FR as [FR1 FR2].
  destruct Hc as [-> | ->]; (repeat split; try assumption); cbn.
  - rewrite <- app_assoc. apply Forall_app. split; [exact FR1|].
    apply Forall_cons. split; [exact Hr|exact FR2].
  - apply Forall_app. split; [exact FR1|].
    apply Forall_app. split; [exact FR2|].
    apply Forall_cons. split; [exact Hr|constructor].
Qed.

Lemma cur_in_level_ids (c : Context.t) (lv : Level.t) :
  Context.cur c = Ok lv -> Level.id lv ∈ level_ids c.
Proof.
  unfold Context.cur, Context.deref, level_ids. intros H.
  destruct (Context.l c) as [r|]; [|discriminate].
  destruct (Context.arena c !! r) as [x|] eqn:Er; [|discriminate].
  injection H as ->. apply list_elem_of_fmap. exists lv.
  split; [reflexivity|]. eapply list_elem_of_lookup_2, Er.
Qed.

Lemma deref_in_level_ids (c : Context.t) (r : nat) (lv : Level.t) :
  Context.deref c r = Ok lv -> Level.id lv ∈ level_ids c.
Proof.
  unfold Context.deref, level_ids. intros H.
  destruct (Context.arena c !! r) as [x|] eqn:Er; [|discriminate].
  injection H as ->. apply list_elem_of_fmap. exists lv.
  split; [reflexivity|]. eapply list_elem_of_lookup_2, Er.
Qed.

(** What resolving branches or recording a call leaves of a Level: its id *)
Lemma define_numeric_id (n : Z) (lv lv' : Level.t) :
  Interp.define_numeric n lv = Ok lv' -> Level.id lv' = Level.id lv.
Proof.
  intros H. apply define_numeric_inv in H as (lv1 & H1 & ->).
  apply process_relocs_same in H1. cbn. apply H1.
Qed.



Lemma finish_id (lv lv' : Level.t) :
  Level.finish lv = Ok lv' -> Level.id lv' = Level.id lv.
Proof. intros H. apply process_relocs_same in H. apply H. Qed.

(** *** The scope stack *)

Lemma set_cur_keeps c lv lv' :
  Context.cur c = Ok lv -> Level.id lv' = Level.id lv ->
  keeps_ids c (Context.set_cur lv' c).
Proof. intros H E. eapply same_buffers_keeps, set_cur_same_buffers; eassumption. Qed.

Lemma patch_call_site_keeps child c c' :
  Level.id child ∈ level_ids c ->
  Context.patch_call_site child c = Ok c' ->
  keeps_ids c c' /\ Context.levels c' = Context.levels c.
Proof.
  unfold Context.patch_call_site. intros Hchild H.
  apply rbind_ok in H as (r & Hr & H).
  apply rbind_ok in H as (ca & _ & H).
  apply rbind_ok in H as (cl & _ & H).
  apply rbind_ok in H as (w & _ & H).
  apply rbind_ok in H as (b1 & _ & H).
  apply rbind_ok in H as (w' & _ & H).
  apply rbind_ok in H as (b2 & _ & H). injection H as <-.
  set (c1 := Context.with_reloc
                (Context.reloc c
                   ++ [mkReloc (Level.id r) (ca * 8) (Level.id child) 0]) c).
  split.
  - apply keeps_ids_trans with c1.
    + eapply add_reloc_keeps; [| |left; reflexivity]; cbn;
        unfold buffer_ids; apply elem_of_app; left;
        [eapply cur_in_level_ids, Hr|exact Hchild].
    + eapply set_cur_keeps; [exact Hr|reflexivity].
  - unfold Context.set_cur. cbn. now destruct (Context.l c).
Qed.

Lemma pop_loop_keeps stack :
  forall ind c c',
    Context.levels c = List.rev stack ->
    Context.pop_loop stack ind c = Ok c' -> keeps_ids c c'.
Proof.
  induction stack as [|popped rest IH]; intros ind c c' Hlv H;
    cbn [Context.pop_loop] in H;
    apply rbind_ok in H as (top & _ & H);
    destruct (Level.indent top =? ind)%nat;
    try (injection H as <-; apply keeps_ids_refl); try discriminate.
  set (c1 := Context.with_completed (Context.completed c ++ [popped])
               (Context.with_levels (List.rev rest) c)) in *.
  assert (H1 : same_buffers c c1).
  { repeat split. cbn. rewrite Hlv. cbn [List.rev].
    rewrite <- app_assoc. apply Permutation_app_head, Permutation_app_comm. }
  assert (H2 : keeps_ids c (Context.set_l c1)).
  { apply same_buffers_keeps.
    eapply same_buffers_trans; [exact H1|apply set_l_same_buffers]. }
  destruct rest as [|next rest'].
  - injection H as <-. exact H2.
  - apply rbind_ok in H as (child & Hchild & H).
    apply rbind_ok in H as (c3 & H3 & H).
    apply patch_call_site_keeps in H3 as [H3 L3];
      [|eapply deref_in_level_ids, Hchild].
    apply IH in H.
    + eapply keeps_ids_trans; [exact H2|].
      eapply keeps_ids_trans; [exact H3|exact H].
    + rewrite L3. unfold Context.set_l. cbn.
      now destruct (List.rev (List.rev rest' ++ [next])).
Qed.

Lemma pop_until_keeps ind c c' :
  Context.pop_until ind c = Ok c' -> keeps_ids c c'.
Proof.
  intros H. eapply pop_loop_keeps; [|exact H]. now rewrite rev_involutive.
Qed.

Lemma close_root_keeps ind c c' :
  Context.close_root ind c = Ok c' -> keeps_ids c c'.
Proof.
  unfold Context.close_root, PyList.pop. intros H.
  apply rbind_ok in H as ([r rest] & Hpop & H).
  apply rbind_ok in H as (lv & Hlv & H).
  apply rbind_ok in H as (lv' & Hfin & H). injection H as <-.
  apply finish_id in Hfin.
  destruct (List.rev (Context.levels c)) as [|x rrest] eqn:Erev; [discriminate|].
  injection Hpop as -> <-.
  apply (f_equal (@List.rev nat)) in Erev. rewrite rev_involutive in Erev.
  cbn [List.rev] in Erev.
  eapply keeps_ids_trans;
    [|eapply keeps_ids_trans;
       [apply push_level_keeps|apply same_buffers_keeps, set_l_same_buffers]].
  apply same_buffers_keeps. repeat split.
  - unfold level_ids. cbn. rewrite list_fmap_insert, Hfin.
    apply list_insert_id. unfold Context.deref in Hlv.
    rewrite list_lookup_fmap.
    destruct (Context.arena c !! r); [|discriminate]. now injection Hlv as ->.
  - cbn. rewrite Erev, <- app_assoc.
    apply Permutation_app_head, Permutation_app_comm.
Qed.

Lemma attach_exe_same ind c c' :
  Context.attach_exe ind c = Ok c' -> same_buffers c c'.
Proof.
  unfold Context.attach_exe. intros H.
  destruct (PyList.len (Context.exe c) =? 0);
    [injection H as <-; apply same_buffers_refl|].
  destruct (Context.last_exe c) as [le|];
    [|injection H as <-; now apply same_buffers_fields].
  apply rbind_ok in H as (c1 & H1 & H). injection H as <-.
  apply same_buffers_trans with c1; [|now apply same_buffers_fields].
  destruct (List.rev (Context.completed c)) as [|r ?];
    [injection H1 as <-; apply same_buffers_refl|].
  ok_inv H1. now apply same_buffers_fields.
Qed.

Lemma flush_exe_keeps c c' : Context.flush_exe c = Ok c' -> keeps_ids c c'.
Proof.
  unfold Context.flush_exe. intros H.
  apply rbind_ok in H as (r0 & _ & H).
  apply rbind_ok in H as (root & _ & H).
  apply rbind_ok in H as (c1 & H1 & H). apply pop_until_keeps in H1.
  apply rbind_ok in H as (r1 & _ & H).
  apply rbind_ok in H as (root1 & _ & H).
  apply rbind_ok in H as (c2 & H2 & H).
  apply attach_exe_same, same_buffers_keeps in H.
  eapply keeps_ids_trans; [exact H1|]. eapply keeps_ids_trans; [|exact H].
  destruct (negb (PyList.len (Level.buffer root1) =? 0)).
  - eapply close_root_keeps, H2.
  - injection H2 as <-. apply keeps_ids_refl.
Qed.

Lemma enter_line_keeps indent loc c c' :
  Interp.enter_line indent loc c = Ok c' -> keeps_ids c c'.
Proof.
  unfold Interp.enter_line. intros H.
  apply rbind_ok in H as (c1 & H1 & H). injection H as <-.
  apply keeps_ids_trans with c1;
    [|apply same_buffers_keeps;
      apply same_buffers_trans with (Context.set_l c1);
        [apply set_l_same_buffers|now apply same_buffers_fields]].
  destruct (Interp.old_indent loc) as [old|].
  - destruct (negb (indent =? old)%nat).
    + destruct (old <? indent)%nat.
      * apply rbind_ok in H1 as (u & _ & H1). injection H1 as <-.
        apply push_level_keeps.
      * eapply pop_until_keeps, H1.
    + injection H1 as <-. apply keeps_ids_refl.
  - injection H1 as <-. apply push_level_keeps.
Qed.

(** *** The lines of the text *)

Ltac fwd H ::=
  first [ apply pop_until_keeps in H
        | apply flush_exe_keeps in H
        | apply enter_line_keeps in H
        | idtac ].

Ltac keeps_chain :=
  repeat (eapply keeps_ids_trans; [eassumption|]);
  first [ apply keeps_ids_refl
        | eassumption
        | apply same_buffers_keeps; apply same_buffers_fields; reflexivity ].

Lemma print_keeps p c : keeps_ids c (Context.print p c).
Proof. apply same_buffers_keeps. now apply same_buffers_fields. Qed.

Lemma define_label_keeps loc s0 c c' :
  Interp.define_label loc s0 c = Ok c' -> keeps_ids c c'.
Proof.
  unfold Interp.define_label, Interp.define_symbolic. intros H.
  apply rbind_ok in H as (numeric & _ & H). destruct numeric.
  - apply rbind_ok in H as (n & _ & H).
    apply rbind_ok in H as (lv & Hlv & H).
    apply rbind_ok in H as (lv' & Hd & H). injection H as <-.
    eapply set_cur_keeps; [exact Hlv|]. eapply define_numeric_id, Hd.
  - apply rbind_ok in H as (lv & Hlv & H). injection H as <-.
    destruct (Level.labels lv !! _).
    + eapply keeps_ids_trans; [apply print_keeps|].
      eapply set_cur_keeps; [exact Hlv|reflexivity].
    + eapply set_cur_keeps; [exact Hlv|reflexivity].
Qed.

Lemma labels_of_line_keeps loc s c s' c' :
  Interp.labels_of_line loc s c = Ok (s', c') -> keeps_ids c c'.
Proof.
  unfold Interp.labels_of_line. intros H.
  apply rbind_ok in H as (t & _ & H).
  apply rbind_ok in H as (is_label & _ & H).
  destruct is_label; [|injection H as _ <-; apply keeps_ids_refl].
  apply rbind_ok in H as (s0 & _ & H).
  apply rbind_ok in H as (c1 & H1 & H). apply define_label_keeps in H1.
  destruct (Operand.len_is _ 0); now injection H as _ <-.
Qed.

Lemma named_buffer_id_in name c i :
  Interp.named_buffer_id name c = Ok i -> i ∈ buffer_ids c.
Proof.
  unfold Interp.named_buffer_id, buffer_ids. intros H.
  destruct (String.eqb name ".").
  - apply rbind_ok in H as (lv & Hlv & H). injection H as <-.
    apply elem_of_app. left. eapply cur_in_level_ids, Hlv.
  - apply rbind_ok in H as (a & Ha & H). injection H as <-.
    apply elem_of_app. right. eapply dict_get_in, Ha.
Qed.

Lemma dollar_step_keeps i s c s' c' :
  Interp.dollar_step i s c = Ok (s', c') -> keeps_ids c c'.
Proof.
  unfold Interp.dollar_step. intros H.
  apply rbind_ok in H as (si & _ & H).
  destruct (PyStr.startswith "$" si); [|injection H as _ <-; apply keeps_ids_refl].
  destruct (PyStr.split "+" (PyStr.tail si)) as [|name offset]; [discriminate|].
  apply rbind_ok in H as (buf_id & Hbuf & H).
  apply rbind_ok in H as (o & _ & H).
  apply rbind_ok in H as (s0 & _ & H).
  apply rbind_ok in H as (lv & Hlv & H). injection H as _ <-.
  apply named_buffer_id_in in Hbuf.
  eapply (add_reloc_keeps c _
            (mkReloc (Level.id lv) (Level.offset lv) buf_id o)); cbn.
  - unfold buffer_ids. apply elem_of_app. left. eapply cur_in_level_ids, Hlv.
  - exact Hbuf.
  - destruct (String.eqb s0 "movp"); [right|left]; reflexivity.
Qed.

Lemma dollar_loop_keeps n :
  forall i s c s' c',
    Interp.dollar_loop n i s c = Ok (s', c') -> keeps_ids c c'.
Proof.
  induction n as [|n IH]; intros i s c s' c' H; cbn [Interp.dollar_loop] in H.
  - injection H as <- <-. apply keeps_ids_refl.
  - apply rbind_ok in H as ([s1 c1] & H1 & H).
    apply dollar_step_keeps in H1. apply IH in H.
    eapply keeps_ids_trans; eassumption.
Qed.

Lemma append_code_keeps code c c' :
  Interp.append_code code c = Ok c' -> keeps_ids c c'.
Proof.
  unfold Interp.append_code. intros H.
  apply rbind_ok in H as (lv & Hlv & H). injection H as <-.
  eapply set_cur_keeps; [exact Hlv|reflexivity].
Qed.

Lemma append_codes_keeps ws :
  forall c c', Interp.append_codes ws c = Ok c' -> keeps_ids c c'.
Proof.
  induction ws as [|w r IH]; intros c c' H; cbn in H.
  - injection H as <-. apply keeps_ids_refl.
  - apply rbind_ok in H as (c1 & H1 & H).
    apply append_code_keeps in H1. apply IH in H.
    eapply keeps_ids_trans; eassumption.
Qed.

Ltac fwd H ::=
  first [ apply pop_until_keeps in H
        | apply flush_exe_keeps in H
        | apply enter_line_keeps in H
        | apply labels_of_line_keeps in H
        | apply dollar_loop_keeps in H
        | apply append_codes_keeps in H
        | apply append_code_keeps in H
        | idtac ].











(** *** The tables *)












(** ** [$] operands *)







(** ** A register move is an addition of zero *)

(** X16.  A register-to-register [mov] is encoded as the addition of
    zero: [mov a, b] and [add a, b, 0] succeed together and give the same
    fields. *)
Theorem mov_register_is_add_zero (m a b : string) (w : Encode.word3) :
  Encode.mov_reg [m; a; b] = Ok w <-> Encode.add [m; a; b; "0"] = Ok w.
Proof.
  unfold Encode.mov_reg, Encode.add, Operand.tok0.
  change (Operand.len_is [m; a; b] 3) with true.
  change (Operand.len_is [m; a; b; "0"] 4) with true.
  change (Operand.tok [m; a; b] 1) with (@Ok string a).
  change (Operand.tok [m; a; b] 2) with (@Ok string b).
  change (Operand.tok [m; a; b; "0"] 1) with (@Ok string a).
  change (Operand.tok [m; a; b; "0"] 2) with (@Ok string b).
  change (Operand.tok [m; a; b; "0"] 3) with (@Ok string "0").
  cbn [rbind py_assert].
  change (Operand.val "0") with (@Ok Z 0).
  destruct (PyStr.head a) as [c1|]; cbn [rbind]; [|split; discriminate].
  destruct (PyStr.head b) as [c2|]; cbn [rbind]; [|split; discriminate].
  destruct (Ascii.eqb c1 c2); cbn [rbind py_assert]; [|split; discriminate].
  unfold Encode.width_cmd, PyStr.mem. cbn [PyStr.chars list_ascii_of_string existsb].
  destruct (Ascii.eqb_spec c1 "x") as [->|Hx].
  - change (Ascii.eqb "x" "w") with false. cbn [rbind py_assert orb].
    destruct (Operand.reg a); cbn [rbind]; [|split; discriminate].
    destruct (Operand.reg b); cbn [rbind]; [|split; discriminate].
    change (Z.land 0 4294967295) with 0. rewrite Z.lor_0_r. reflexivity.
  - destruct (Ascii.eqb_spec c1 "w") as [->|Hw]; cbn [rbind py_assert orb].
    + destruct (Operand.reg a); cbn [rbind]; [|split; discriminate].
      destruct (Operand.reg b); cbn [rbind]; [|split; discriminate].
      change (Z.land 0 4294967295) with 0. rewrite Z.lor_0_r. reflexivity.
    + split; discriminate.
Qed.

Lemma mov_register_is_add_zero_witness :
  Encode.add ["mov"; "x10"; "x20"; "0"] = Ok (17, 0x10, Z.shiftl 0x20 40).
Proof.
  apply (mov_register_is_add_zero "mov" "x10" "x20"). reflexivity.
Defined.

(** ** The immediate of an addition *)



(** ** The scope stack *)

Lemma same_stack_refl c : same_stack c c.
Proof. repeat split. Qed.

Lemma same_stack_trans a b c :
  same_stack a b -> same_stack b c -> same_stack a c.
Proof.
  intros (A1 & A2 & A3 & A4) (B1 & B2 & B3 & B4). repeat split; congruence.
Qed.

Lemma same_stack_fields c c' :
  Context.arena c' = Context.arena c ->
  Context.levels c' = Context.levels c ->
  Context.l c' = Context.l c ->
  Context.completed c' = Context.completed c ->
  same_stack c c'.
Proof. intros A B C D. unfold same_stack, indents. now rewrite A, B, C, D. Qed.

Lemma indents_length c c' :
  indents c' = indents c ->
  List.length (Context.arena c') = List.length (Context.arena c).
Proof.
  unfold indents. intros H. apply (f_equal (@List.length nat)) in H.
  now rewrite !length_fmap in H.
Qed.

Lemma same_stack_keeps c c' : same_stack c c' -> keeps_stack c c'.
Proof.
  intros (A & B & C & D) (L & S & P).
  unfold stack_ok, top_le, indent_of in *.
  rewrite A, B, C, D, (indents_length _ _ C). auto.
Qed.

Lemma keeps_stack_refl c : keeps_stack c c.
Proof. intros H. auto. Qed.

Lemma keeps_stack_trans a b c :
  keeps_stack a b -> keeps_stack b c -> keeps_stack a c.
Proof.
  intros H1 H2 H. destruct (H1 H) as [Hb T1]. destruct (H2 Hb) as [Hc T2].
  auto.
Qed.

Lemma set_cur_same_stack c lv lv' :
  Context.cur c = Ok lv -> Level.indent lv' = Level.indent lv ->
  same_stack c (Context.set_cur lv' c).
Proof.
  unfold Context.cur, Context.set_cur, Context.deref. intros H E.
  destruct (Context.l c) as [r|] eqn:El; [|discriminate].
  destruct (Context.arena c !! r) as [x|] eqn:Er; [|discriminate].
  injection H as ->.
  repeat split; try reflexivity.
  unfold indents. cbn.
  rewrite list_fmap_insert, E. apply list_insert_id.
  now rewrite list_lookup_fmap, Er.
Qed.

Lemma set_cur_keeps_stack c lv lv' :
  Context.cur c = Ok lv -> Level.indent lv' = Level.indent lv ->
  keeps_stack c (Context.set_cur lv' c).
Proof. intros H E. eapply same_stack_keeps, set_cur_same_stack; eassumption. Qed.

(** What resolving branches or recording a call leaves of a Level: its
    indentation *)
Lemma define_numeric_indent (n : Z) (lv lv' : Level.t) :
  Interp.define_numeric n lv = Ok lv' -> Level.indent lv' = Level.indent lv.
Proof.
  intros H. apply define_numeric_inv in H as (lv1 & H1 & ->).
  apply process_relocs_same in H1. cbn. apply H1.
Qed.



Lemma finish_indent (lv lv' : Level.t) :
  Level.finish lv = Ok lv' -> Level.indent lv' = Level.indent lv.
Proof. intros H. apply process_relocs_same in H. apply H. Qed.

Lemma patch_call_site_same_stack child c c' :
  Context.patch_call_site child c = Ok c' -> same_stack c c'.
Proof.
  unfold Context.patch_call_site. intros H.
  apply rbind_ok in H as (r & Hr & H).
  apply rbind_ok in H as (ca & _ & H).
  apply rbind_ok in H as (cl & _ & H).
  apply rbind_ok in H as (w & _ & H).
  apply rbind_ok in H as (b1 & _ & H).
  apply rbind_ok in H as (w' & _ & H).
  apply rbind_ok in H as (b2 & _ & H). injection H as <-.
  set (c1 := Context.with_reloc
                (Context.reloc c
                   ++ [mkReloc (Level.id r) (ca * 8) (Level.id child) 0]) c).
  apply same_stack_trans with c1; [now apply same_stack_fields|].
  eapply set_cur_same_stack; [exact Hr|reflexivity].
Qed.

Lemma cur_indent_of c lv top :
  Context.l c = Some top -> Context.cur c = Ok lv ->
  indent_of c top = Level.indent lv.
Proof.
  unfold Context.cur, Context.deref, indent_of, indents. intros -> H.
  rewrite list_lookup_fmap.
  destruct (Context.arena c !! top); [|discriminate]. now injection H as ->.
Qed.

Lemma stack_ok_empty c :
  Context.levels c = [] ->
  Context.completed c ≡ₚ seq 0 (List.length (Context.arena c)) ->
  stack_ok c.
Proof. intros E P. unfold stack_ok. rewrite E. cbn. auto. Qed.

Lemma stack_ok_top c top below :
  List.rev (Context.levels c) = top :: below ->
  Context.l c = Some top ->
  decreasing (indent_of c <$> top :: below) ->
  Context.levels c ++ Context.completed c
  ≡ₚ seq 0 (List.length (Context.arena c)) ->
  stack_ok c.
Proof. intros E L S P. unfold stack_ok. rewrite E. auto. Qed.

Lemma set_l_top c top below :
  List.rev (Context.levels c) = top :: below ->
  Context.set_l c = Context.with_l (Some top) c.
Proof. intros E. unfold Context.set_l. now rewrite E. Qed.

Lemma set_l_empty c : Context.levels c = [] -> Context.set_l c = c.
Proof. intros E. unfold Context.set_l. now rewrite E. Qed.

(** Popping down to an indentation: the stack is empty or its top has
    that indentation. *)
Lemma pop_loop_stack stack :
  forall ind c c',
    Context.levels c = List.rev stack ->
    stack_ok c ->
    Context.pop_loop stack ind c = Ok c' ->
    stack_ok c' /\ top_le ind c' /\ indents c' = indents c
    /\ exists kept, List.rev stack = Context.levels c' ++ kept.
Proof.
  induction stack as [|popped rest IH]; intros ind c c' Hlv Hok H;
    pose proof Hok as (L & S & P);
    cbn [Context.pop_loop] in H;
    apply rbind_ok in H as (top & Htop & H);
    rewrite Hlv, rev_involutive in L, S.
  - destruct (Level.indent top =? ind)%nat; [|discriminate].
    injection H as <-. split; [exact Hok|]. split; [|split; [reflexivity|]].
    + unfold top_le. now rewrite Hlv.
    + exists (@nil nat). now rewrite Hlv.
  - destruct (Nat.eqb_spec (Level.indent top) ind) as [E|E].
    + injection H as <-. split; [exact Hok|]. split; [|split; [reflexivity|]].
      * unfold top_le. rewrite Hlv, rev_involutive.
        rewrite (cur_indent_of _ _ _ L Htop). lia.
      * exists (@nil nat). now rewrite Hlv, app_nil_r.
    + set (c1 := Context.with_completed (Context.completed c ++ [popped])
                   (Context.with_levels (List.rev rest) c)) in *.
      cbn in S. destruct S as [_ S].
      rewrite Hlv in P. cbn [List.rev] in P.
      assert (P1 : List.rev rest ++ Context.completed c ++ [popped]
                   ≡ₚ seq 0 (List.length (Context.arena c))).
      { rewrite <- P, <- !app_assoc.
        apply Permutation_app_head, Permutation_app_comm. }
      destruct rest as [|next rest'].
      * injection H as <-. rewrite set_l_empty by reflexivity.
        split; [apply stack_ok_empty; [reflexivity|exact P1]|].
        split; [exact I|]. split; [reflexivity|].
        exists [popped]. reflexivity.
      * assert (Hrev : List.rev (Context.levels c1) = next :: rest')
          by apply rev_involutive.
        rewrite (set_l_top _ _ _ Hrev) in H.
        set (c2 := Context.with_l (Some next) c1) in *.
        assert (Hok2 : stack_ok c2).
        { apply (stack_ok_top c2 next rest'); [exact Hrev|reflexivity|exact S|].
          exact P1. }
        apply rbind_ok in H as (child & _ & H).
        apply rbind_ok in H as (c3 & H3 & H).
        apply patch_call_site_same_stack in H3.
        destruct (IH ind c3 c') as (Hok3 & Htl & Hind & kept & Hk);
          [| |exact H|].
        -- destruct H3 as (-> & _). reflexivity.
        -- apply (same_stack_keeps _ _ H3), Hok2.
        -- split; [exact Hok3|]. split; [exact Htl|].
           split; [rewrite Hind; apply H3|].
           exists (kept ++ [popped]). cbn [List.rev] in *.
           rewrite Hk, <- app_assoc. reflexivity.
Qed.

Lemma pop_until_stack ind c c' :
  stack_ok c ->
  Context.pop_until ind c = Ok c' ->
  stack_ok c' /\ top_le ind c' /\ indents c' = indents c
  /\ exists kept, Context.levels c = Context.levels c' ++ kept.
Proof.
  intros Hok H. unfold Context.pop_until in H.
  apply pop_loop_stack in H as (A & B & C & kept & D);
    [|now rewrite rev_involutive|exact Hok].
  rewrite rev_involutive in D. eauto.
Qed.

Lemma elem_of_rev {A} (x : A) (l : list A) : x ∈ List.rev l <-> x ∈ l.
Proof. rewrite !list_elem_of_In. symmetry. apply in_rev. Qed.

Lemma stack_refs_valid c r :
  stack_ok c -> r ∈ Context.levels c -> (r < List.length (Context.arena c))%nat.
Proof.
  intros (_ & _ & P) Hr.
  assert (Hin : r ∈ seq 0 (List.length (Context.arena c))).
  { rewrite <- P. apply elem_of_app. now left. }
  apply elem_of_seq in Hin. lia.
Qed.

Lemma decreasing_le_top (top : nat) (below : list nat) :
  decreasing (top :: below) -> Forall (fun y => (y <= top)%nat) (top :: below).
Proof.
  intros [F _]. apply Forall_cons. split; [lia|].
  eapply Forall_impl; [exact F|]. cbn. intros. lia.
Qed.

(** A new Level at a deeper indentation, or the first Level *)
Lemma push_level_stack ind c :
  stack_ok c ->
  Context.levels c = [] \/ (exists o, top_le o c /\ (o < ind)%nat) ->
  let c' := Context.set_l (Context.push_level ind c) in
  stack_ok c' /\ top_le ind c'
  /\ exists r lv, Context.levels c' = Context.levels c ++ [r]
       /\ Context.arena c' !! r = Some lv /\ Level.buffer lv = []
       /\ Level.indent lv = ind.
Proof.
  intros Hok Hdeep c'.
  pose proof Hok as (L & S & P).
  set (n := List.length (Context.arena c)).
  assert (Hrev : List.rev (Context.levels (Context.push_level ind c))
                 = n :: List.rev (Context.levels c)).
  { unfold Context.push_level, Context.new_level. cbn.
    now rewrite rev_app_distr. }
  assert (Hc' : c' = Context.with_l (Some n) (Context.push_level ind c)).
  { unfold c'. apply (set_l_top _ _ _ Hrev). }
  assert (Hnew : forall r, indent_of c' n = ind
                           /\ ((r < n)%nat -> indent_of c' r = indent_of c r)).
  { intros r. rewrite Hc'. unfold indent_of, indents, Context.push_level,
      Context.new_level. cbn. rewrite fmap_app. split.
    - rewrite lookup_app_r by (rewrite length_fmap; fold n; lia).
      rewrite length_fmap. fold n. now rewrite Nat.sub_diag.
    - intros Hr. rewrite lookup_app_l by (rewrite length_fmap; fold n; lia).
      reflexivity. }
  assert (Hmap : indent_of c' <$> List.rev (Context.levels c)
                 = indent_of c <$> List.rev (Context.levels c)).
  { apply list_fmap_ext. intros i r Hr. apply Hnew.
    apply (stack_refs_valid c r Hok).
    apply list_elem_of_lookup_2 in Hr.
    exact (proj1 (elem_of_rev _ _) Hr). }
  split; [|split].
  - apply (stack_ok_top c' n (List.rev (Context.levels c))).
    + rewrite Hc'. exact Hrev.
    + rewrite Hc'. reflexivity.
    + cbn [fmap list_fmap]. fold (fmap (indent_of c') (List.rev (Context.levels c))).
      rewrite Hmap. destruct (Hnew 0%nat) as [-> _]. split; [|exact S].
      destruct Hdeep as [E|(o & Ho & Hlt)].
      * rewrite E. constructor.
      * unfold top_le in Ho.
        destruct (List.rev (Context.levels c)) as [|top below]; [constructor|].
        cbn [fmap list_fmap] in S |- *.
        apply decreasing_le_top in S.
        eapply Forall_impl; [exact S|]. cbn. intros. lia.
    + rewrite Hc'. unfold Context.push_level, Context.new_level. cbn.
      rewrite length_app. cbn [List.length]. fold n.
      rewrite Nat.add_1_r, seq_S. cbn [Nat.add].
      unfold n. rewrite <- P. rewrite <- !app_assoc.
      apply Permutation_app_head, Permutation_app_comm.
  - unfold top_le. rewrite Hc'. cbn [Context.levels Context.with_l].
    rewrite Hrev. destruct (Hnew 0%nat) as [E _]. rewrite Hc' in E.
    rewrite E. lia.
  - exists n, (Level.new (Context.Buffer_id c) ind). rewrite Hc'.
    unfold Context.push_level, Context.new_level. cbn.
    split; [reflexivity|]. split; [|split; reflexivity].
    rewrite lookup_app_r by (fold n; lia). fold n.
    now rewrite Nat.sub_diag.
Qed.


(** The stack holds one Level: the bottom one *)
Lemma pop_to_bottom c c' bottom more :
  stack_ok c ->
  Context.levels c = bottom :: more ->
  Context.pop_until (indent_of c bottom) c = Ok c' ->
  stack_ok c' /\ indents c' = indents c
  /\ (Context.levels c' = [] \/ Context.levels c' = [bottom]).
Proof.
  intros Hok Hlv H.
  apply pop_until_stack in H as (Hok' & Htl & Hind & kept & Hk); [|exact Hok].
  split; [exact Hok'|]. split; [exact Hind|].
  destruct (Context.levels c') as [|b pre] eqn:E; [now left|right].
  rewrite Hlv in Hk. injection Hk as <- _.
  destruct Hok' as (_ & S & _). unfold top_le in Htl. rewrite E in S, Htl.
  destruct (List.rev pre) as [|top below] eqn:Er.
  - apply (f_equal (@List.rev nat)) in Er. rewrite rev_involutive in Er.
    now rewrite Er.
  - exfalso. cbn [List.rev] in S, Htl. rewrite Er in S, Htl.
    cbn [app fmap list_fmap] in S, Htl. destruct S as [F _].
    rewrite fmap_app, Forall_app in F. destruct F as [_ F].
    apply Forall_cons in F as [F _].
    unfold indent_of in *. rewrite Hind in *. lia.
Qed.

Lemma deref_indent_of c r lv :
  Context.deref c r = Ok lv -> indent_of c r = Level.indent lv.
Proof.
  unfold Context.deref, indent_of, indents. intros H.
  rewrite list_lookup_fmap.
  destruct (Context.arena c !! r); [|discriminate]. now injection H as ->.
Qed.

Lemma close_root_stack ind c c' r :
  stack_ok c ->
  Context.levels c = [r] ->
  Context.close_root ind c = Ok c' ->
  stack_ok c' /\ top_le ind c'
  /\ exists r' lv, Context.levels c' = [r']
       /\ Context.arena c' !! r' = Some lv /\ Level.buffer lv = []
       /\ Level.indent lv = ind.
Proof.
  intros Hok Hlv H. unfold Context.close_root, PyList.pop in H.
  rewrite Hlv in H. cbn [List.rev app rbind] in H.
  apply rbind_ok in H as (lv & Hd & H).
  apply rbind_ok in H as (lv' & Hfin & H). injection H as <-.
  apply finish_indent in Hfin.
  set (c2 := Context.with_completed _ _).
  assert (Hok2 : stack_ok c2).
  { destruct Hok as (_ & _ & P). apply stack_ok_empty; [reflexivity|].
    unfold c2. cbn. rewrite length_insert. rewrite Hlv in P. cbn in P.
    rewrite <- P. symmetry. apply Permutation_cons_append. }
  destruct (push_level_stack ind c2 Hok2) as (A & B & r' & x & E & F & G & I);
    [left; reflexivity|].
  split; [exact A|]. split; [exact B|]. exists r', x. auto.
Qed.

Lemma attach_exe_same_stack ind c c' :
  Context.attach_exe ind c = Ok c' ->
  same_stack c c' /\ Context.arena c' = Context.arena c.
Proof.
  unfold Context.attach_exe. intros H.
  destruct (PyList.len (Context.exe c) =? 0);
    [injection H as <-; split; [apply same_stack_refl|reflexivity]|].
  destruct (Context.last_exe c) as [le|];
    [|injection H as <-; split; [now apply same_stack_fields|reflexivity]].
  apply rbind_ok in H as (c1 & H1 & H). injection H as <-.
  assert (H' : same_stack c c1 /\ Context.arena c1 = Context.arena c).
  { destruct (List.rev (Context.completed c)) as [|r ?];
      [injection H1 as <-; split; [apply same_stack_refl|reflexivity]|].
    ok_inv H1. split; [now apply same_stack_fields|reflexivity]. }
  destruct H' as [H' A]. split; [|exact A].
  apply same_stack_trans with c1; [exact H'|now apply same_stack_fields].
Qed.

(** After [flush_exe] the stack holds one Level, which is empty unless the
    bottom Level was. *)
Lemma flush_exe_stack c c' :
  stack_ok c ->
  Context.flush_exe c = Ok c' ->
  stack_ok c'
  /\ (forall o, top_le o c -> top_le o c')
  /\ exists r lv, Context.levels c' = [r]
       /\ Context.arena c' !! r = Some lv /\ Level.buffer lv = [].
Proof.
  intros Hok H. unfold Context.flush_exe in H.
  apply rbind_ok in H as (r0 & Hr0 & H).
  apply rbind_ok in H as (root & Hroot & H).
  apply rbind_ok in H as (c1 & H1 & H).
  apply rbind_ok in H as (r1 & Hr1 & H).
  apply rbind_ok in H as (root1 & Hroot1 & H).
  apply rbind_ok in H as (c2 & H2 & H).
  apply attach_exe_same_stack in H as [H A].
  destruct (Context.levels c) as [|bottom more] eqn:Elv; [discriminate|].
  injection Hr0 as ->.
  rewrite <- (deref_indent_of _ _ _ Hroot) in H1.
  pose proof (deref_indent_of _ _ _ Hroot) as Hind0.
  apply (pop_to_bottom c c1 r0 more Hok Elv) in H1 as (Hok1 & Hind & [E|E]);
    [rewrite E in Hr1; discriminate|].
  rewrite E in Hr1. injection Hr1 as <-.
  
  assert (Htop1 : forall o, top_le o c -> top_le (Level.indent root) c1).
  { intros o _. unfold top_le. rewrite E. cbn.
    unfold indent_of. rewrite Hind. fold (indent_of c r0). lia. }
  assert (Hle : forall o, top_le o c -> (Level.indent root <= o)%nat).
  { intros o Ho. unfold top_le in Ho. destruct Hok as (_ & S & _).
    rewrite Elv in Ho, S. cbn [List.rev] in Ho, S.
    destruct (List.rev more ++ [r0]) as [|top below] eqn:Er;
      [now destruct (List.rev more)|].
    cbn [fmap list_fmap] in S. apply decreasing_le_top in S.
    assert (Hin : indent_of c r0 ∈ indent_of c <$> top :: below).
    { apply list_elem_of_fmap. exists r0. split; [reflexivity|].
      rewrite <- Er. apply elem_of_app. right. apply list_elem_of_singleton.
      reflexivity. }
    rewrite Forall_forall in S. specialize (S _ Hin). lia. }
  destruct (negb (PyList.len (Level.buffer root1) =? 0)) eqn:Eb.
  - apply (close_root_stack _ c1 c2 r0 Hok1 E) in H2
      as (Hok2 & Htl2 & r' & lv & El & Ea & Ebuf & Ei).
    split; [apply (same_stack_keeps _ _ H), Hok2|]. split.
    + intros o Ho. apply (same_stack_keeps _ _ H Hok2).
      unfold top_le in *. rewrite El in *. cbn in *.
      specialize (Hle o Ho). lia.
    + exists r', lv. destruct H as (-> & _). rewrite A. auto.
  - injection H2 as <-.
    split; [apply (same_stack_keeps _ _ H), Hok1|]. split.
    + intros o Ho. apply (same_stack_keeps _ _ H Hok1).
      specialize (Htop1 o Ho). specialize (Hle o Ho).
      unfold top_le in *. rewrite E in *. cbn in *. lia.
    + exists r0, root1. destruct H as (-> & _). rewrite A.
      split; [exact E|]. unfold Context.deref in Hroot1.
      destruct (Context.arena c1 !! r0) as [x|]; [|discriminate].
      injection Hroot1 as ->. split; [reflexivity|].
      apply negb_false_iff, Z.eqb_eq in Eb. unfold PyList.len in Eb.
      destruct (Level.buffer root1); [reflexivity|discriminate].
Qed.

Lemma flush_exe_keeps_stack c c' :
  Context.flush_exe c = Ok c' -> keeps_stack c c'.
Proof.
  intros H Hok. destruct (flush_exe_stack c c' Hok H) as (A & B & _). auto.
Qed.


(** *** The lines of the text *)

Ltac fwd H ::=
  first [ apply flush_exe_keeps_stack in H | idtac ].

Lemma fields_keep_stack c c' :
  Context.arena c' = Context.arena c ->
  Context.levels c' = Context.levels c ->
  Context.l c' = Context.l c ->
  Context.completed c' = Context.completed c ->
  keeps_stack c c'.
Proof. intros. now apply same_stack_keeps, same_stack_fields. Qed.

Lemma define_label_keeps_stack loc s0 c c' :
  Interp.define_label loc s0 c = Ok c' -> keeps_stack c c'.
Proof.
  unfold Interp.define_label, Interp.define_symbolic. intros H.
  apply rbind_ok in H as (numeric & _ & H). destruct numeric.
  - apply rbind_ok in H as (n & _ & H).
    apply rbind_ok in H as (lv & Hlv & H).
    apply rbind_ok in H as (lv' & Hd & H). injection H as <-.
    eapply set_cur_keeps_stack; [exact Hlv|]. eapply define_numeric_indent, Hd.
  - apply rbind_ok in H as (lv & Hlv & H). injection H as <-.
    destruct (Level.labels lv !! _).
    + apply keeps_stack_trans with (Context.print PLabelReuse c);
        [now apply fields_keep_stack|].
      eapply set_cur_keeps_stack; [exact Hlv|reflexivity].
    + eapply set_cur_keeps_stack; [exact Hlv|reflexivity].
Qed.

Lemma labels_of_line_keeps_stack loc s c s' c' :
  Interp.labels_of_line loc s c = Ok (s', c') -> keeps_stack c c'.
Proof.
  unfold Interp.labels_of_line. intros H.
  apply rbind_ok in H as (t & _ & H).
  apply rbind_ok in H as (is_label & _ & H).
  destruct is_label; [|injection H as _ <-; apply keeps_stack_refl].
  apply rbind_ok in H as (s0 & _ & H).
  apply rbind_ok in H as (c1 & H1 & H). apply define_label_keeps_stack in H1.
  destruct (Operand.len_is _ 0); now injection H as _ <-.
Qed.

Lemma dollar_step_keeps_stack i s c s' c' :
  Interp.dollar_step i s c = Ok (s', c') -> keeps_stack c c'.
Proof.
  unfold Interp.dollar_step. intros H.
  apply rbind_ok in H as (si & _ & H).
  destruct (PyStr.startswith "$" si); [|injection H as _ <-; apply keeps_stack_refl].
  destruct (PyStr.split "+" (PyStr.tail si)) as [|name offset]; [discriminate|].
  apply rbind_ok in H as (buf_id & _ & H).
  apply rbind_ok in H as (o & _ & H).
  apply rbind_ok in H as (s0 & _ & H).
  apply rbind_ok in H as (lv & _ & H). injection H as _ <-.
  destruct (String.eqb s0 "movp"); now apply fields_keep_stack.
Qed.

Lemma dollar_loop_keeps_stack n :
  forall i s c s' c',
    Interp.dollar_loop n i s c = Ok (s', c') -> keeps_stack c c'.
Proof.
  induction n as [|n IH]; intros i s c s' c' H; cbn [Interp.dollar_loop] in H.
  - injection H as <- <-. apply keeps_stack_refl.
  - apply rbind_ok in H as ([s1 c1] & H1 & H).
    apply dollar_step_keeps_stack in H1. apply IH in H.
    eapply keeps_stack_trans; eassumption.
Qed.

Lemma append_code_keeps_stack code c c' :
  Interp.append_code code c = Ok c' -> keeps_stack c c'.
Proof.
  unfold Interp.append_code. intros H.
  apply rbind_ok in H as (lv & Hlv & H). injection H as <-.
  eapply set_cur_keeps_stack; [exact Hlv|reflexivity].
Qed.

Lemma append_codes_keeps_stack ws :
  forall c c', Interp.append_codes ws c = Ok c' -> keeps_stack c c'.
Proof.
  induction ws as [|w r IH]; intros c c' H; cbn in H.
  - injection H as <-. apply keeps_stack_refl.
  - apply rbind_ok in H as (c1 & H1 & H).
    apply append_code_keeps_stack in H1. apply IH in H.
    eapply keeps_stack_trans; eassumption.
Qed.

Ltac fwd H ::=
  first [ apply flush_exe_keeps_stack in H
        | apply labels_of_line_keeps_stack in H
        | apply dollar_loop_keeps_stack in H
        | apply append_codes_keeps_stack in H
        | apply append_code_keeps_stack in H
        | idtac ].

















(** ** What opens a nested scope *)

Lemma is_call_set_cur lv c :
  Context.is_call (Context.set_cur lv c) = Context.is_call c.
Proof. unfold Context.set_cur. now destruct (Context.l c). Qed.

Lemma is_call_set_l c : Context.is_call (Context.set_l c) = Context.is_call c.
Proof. unfold Context.set_l. now destruct (List.rev (Context.levels c)). Qed.

Lemma is_call_push ind c :
  Context.is_call (Context.push_level ind c) = Context.is_call c.
Proof. reflexivity. Qed.

(** Close a goal [is_call c' = is_call c] from the facts [inv_ok] has
    left. *)
Ltac call_solve :=
  repeat first
    [ rewrite is_call_set_cur
    | rewrite is_call_set_l
    | rewrite is_call_push
    | progress cbn [Context.is_call Context.with_arena Context.with_levels
                    Context.with_l Context.with_allocs Context.with_completed
                    Context.with_reloc Context.with_reloc_split
                    Context.with_exe Context.with_last_exe
                    Context.with_Buffer_id Context.print Interp.exe_append]
    | match goal with
      | H : Context.is_call ?a = _ |- context [Context.is_call ?a] => rewrite H
      end
    | case_match ];
  reflexivity.

Ltac fwd H ::= idtac.

Lemma patch_call_site_call child c c' :
  Context.patch_call_site child c = Ok c' ->
  Context.is_call c' = Context.is_call c.
Proof. unfold Context.patch_call_site. intros H. inv_ok H. call_solve. Qed.

Ltac fwd H ::=
  first [ apply patch_call_site_call in H | idtac ].

Lemma pop_loop_call stack :
  forall ind c c',
    Context.pop_loop stack ind c = Ok c' ->
    Context.is_call c' = Context.is_call c.
Proof.
  induction stack as [|popped rest IH]; intros ind c c' H;
    cbn [Context.pop_loop] in H; inv_ok H; try call_solve.
  apply IH in H. rewrite H. call_solve.
Qed.

Lemma pop_until_call ind c c' :
  Context.pop_until ind c = Ok c' -> Context.is_call c' = Context.is_call c.
Proof. apply pop_loop_call. Qed.

Ltac fwd H ::=
  first [ apply patch_call_site_call in H
        | apply pop_until_call in H
        | idtac ].

Lemma flush_exe_call c c' :
  Context.flush_exe c = Ok c' -> Context.is_call c' = Context.is_call c.
Proof.
  unfold Context.flush_exe, Context.close_root, Context.attach_exe.
  intros H. inv_ok H; call_solve.
Qed.

Lemma labels_of_line_call loc s c s' c' :
  Interp.labels_of_line loc s c = Ok (s', c') ->
  Context.is_call c' = Context.is_call c.
Proof.
  unfold Interp.labels_of_line, Interp.define_label, Interp.define_symbolic.
  intros H. inv_ok H; call_solve.
Qed.

Lemma dollar_step_call i s c s' c' :
  Interp.dollar_step i s c = Ok (s', c') ->
  Context.is_call c' = Context.is_call c.
Proof. unfold Interp.dollar_step. intros H. inv_ok H; call_solve. Qed.

Lemma dollar_loop_call n :
  forall i s c s' c',
    Interp.dollar_loop n i s c = Ok (s', c') ->
    Context.is_call c' = Context.is_call c.
Proof.
  induction n as [|n IH]; intros i s c s' c' H; cbn [Interp.dollar_loop] in H.
  - now injection H as <- <-.
  - apply rbind_ok in H as ([s1 c1] & H1 & H).
    apply dollar_step_call in H1. apply IH in H. congruence.
Qed.

Lemma append_code_call code c c' :
  Interp.append_code code c = Ok c' -> Context.is_call c' = Context.is_call c.
Proof. unfold Interp.append_code. intros H. inv_ok H. call_solve. Qed.

Lemma append_codes_call ws :
  forall c c', Interp.append_codes ws c = Ok c' ->
               Context.is_call c' = Context.is_call c.
Proof.
  induction ws as [|w r IH]; intros c c' H; cbn in H.
  - now injection H as <-.
  - apply rbind_ok in H as (c1 & H1 & H).
    apply append_code_call in H1. apply IH in H. congruence.
Qed.

Ltac fwd H ::=
  first [ apply patch_call_site_call in H
        | apply pop_until_call in H
        | apply flush_exe_call in H
        | apply labels_of_line_call in H
        | apply dollar_loop_call in H
        | apply append_codes_call in H
        | apply append_code_call in H
        | idtac ].













